(** * hali-saha: the listmoz enrollment bot (src/bot.js)

    A shallow embedding of the message handler of [bot.js] and of its
    polling helper [waitForValidFetch], with the properties of its
    specification.

    - JavaScript strings are sequences of UTF-16 code units: [jsstring] is a
      list of code units, each an [N].
    - Indices are JavaScript numbers holding integers; [indexOf] answers [-1]
      when there is no match, so indices are [Z].
    - The handler is an [async] function: its effects (the chat lookup, the
      console, the two HTTP calls, the timer) are the events of a small
      free monad [io] with exceptions, run against a [world] that answers
      the events and records them in a trace. *)

From Stdlib Require Import Strings.String Strings.Ascii Numbers.DecimalString.
From Stdlib Require Import List ZArith NArith Lia Bool Arith.
Import ListNotations.

Set Implicit Arguments.

(** ** JavaScript strings *)

Module JsString.

Definition code_unit := N.
Definition jsstring := list code_unit.

(** A string literal of the source, as code units. *)
Definition js (s : string) : jsstring :=
  map N_of_ascii (list_ascii_of_string s).
Arguments js s%_string.

(** Template-literal interpolation of a non-negative integer, [`${n}`]. *)
Definition of_nat (n : nat) : jsstring :=
  js (NilZero.string_of_uint (Nat.to_uint n)).

(** [a === b] on strings. *)
Fixpoint eqb (a b : jsstring) : bool :=
  match a, b with
  | [], [] => true
  | c :: a', d :: b' => N.eqb c d && eqb a' b'
  | _, _ => false
  end.

(** [s] begins with [sub]. *)
Fixpoint starts_with (sub s : jsstring) : bool :=
  match sub, s with
  | [], _ => true
  | c :: sub', d :: s' => N.eqb c d && starts_with sub' s'
  | _ :: _, [] => false
  end.

(** The smallest position of [s] at which [sub] occurs, counted from [k]. *)
Fixpoint search (sub s : jsstring) (k : nat) : option nat :=
  if starts_with sub s then Some k
  else match s with
       | [] => None
       | _ :: s' => search sub s' (S k)
       end.

(** An index argument clamped to [0 .. len]. *)
Definition clamp (len : nat) (z : Z) : nat :=
  Z.to_nat (Z.min (Z.max z 0) (Z.of_nat len)).

(** [s.indexOf(sub, position)]: the first index at or after [position] where
    [sub] occurs, [-1] when there is none. *)
Definition indexOf (s sub : jsstring) (position : Z) : Z :=
  let start := clamp (length s) position in
  match search sub (skipn start s) start with
  | Some k => Z.of_nat k
  | None => (-1)%Z
  end.

(** [s.includes(sub)]. *)
Definition includes (s sub : jsstring) : bool :=
  negb (Z.eqb (indexOf s sub 0) (-1)).

(** [s.substring(start, end)]: both indices clamped, swapped when out of
    order. *)
Definition substring (s : jsstring) (start end_ : Z) : jsstring :=
  let a := clamp (length s) start in
  let b := clamp (length s) end_ in
  firstn (Nat.max a b - Nat.min a b) (skipn (Nat.min a b) s).

(** WhiteSpace and LineTerminator code units of ECMAScript, the ones
    [trim] strips. *)
Definition is_white_space (c : code_unit) : bool :=
  existsb (N.eqb c)
    [9; 10; 11; 12; 13; 32; 160; 5760;
     8192; 8193; 8194; 8195; 8196; 8197; 8198; 8199; 8200; 8201; 8202;
     8232; 8233; 8239; 8287; 12288; 65279]%N.

Fixpoint trimStart (s : jsstring) : jsstring :=
  match s with
  | c :: s' => if is_white_space c then trimStart s' else s
  | [] => []
  end.

Definition trimEnd (s : jsstring) : jsstring := rev (trimStart (rev s)).

(** [s.trim()]. *)
Definition trim (s : jsstring) : jsstring := trimEnd (trimStart s).

(** [s.split(sep)] for a separator of one code unit: the segments between
    the occurrences of [sep]; the empty string splits into one empty
    segment. *)
Fixpoint split (sep : code_unit) (s : jsstring) : list jsstring :=
  match s with
  | [] => [[]]
  | c :: s' =>
      if N.eqb c sep then [] :: split sep s'
      else match split sep s' with
           | seg :: segs => (c :: seg) :: segs
           | [] => [[c]]
           end
  end.

(** Truthiness of a value that is a string or [undefined]: [undefined] and
    the empty string are falsy. *)
Definition truthy (v : option jsstring) : bool :=
  match v with
  | Some (_ :: _) => true
  | _ => false
  end.

End JsString.
Import JsString.

(** ** The data of the handler *)

(** An error object; the handler reads only [err.message]. *)
Record error := { message : jsstring }.

(** A settled promise. *)
Inductive result (A : Type) : Type :=
| Resolved (a : A)
| Rejected (err : error).
Arguments Rejected {A} err.

(** The message event of the chat client: [msg.from] and [msg.body]. *)
Module Msg.
Record t := { from : jsstring; body : jsstring }.
End Msg.

(** What [msg.getChat()] resolves to. *)
Record chat := { name : jsstring }.

(** An entry of the list, and the body of the lookup response: [read_url]
    and [items] are optional, [None] is the absent ([undefined]) field. *)
Record item := { description : jsstring }.
Record fetch_data := { read_url : option jsstring; items : option (list item) }.
Record response := { data : fetch_data }.

(** The body of the submission. *)
Module Payload.
Record t := {
  description : jsstring;
  force_creation_of_new_list : bool;
  mod_url : jsstring;
  read_url : option jsstring
}.
End Payload.

(** ** Effects *)

(** The calls the handler makes to its surroundings, each with the type of
    what it gives back. *)
Inductive eff : Type -> Type :=
| getChat (msg : Msg.t) : eff (result chat)
| console_log (args : list jsstring) : eff unit
| console_error (args : list jsstring) : eff unit
| axios_get (url : jsstring) : eff (result response)
| axios_post (url : jsstring) (body : Payload.t)
    (headers : list (jsstring * jsstring)) : eff (result unit)
| delay (ms : N) : eff unit.

(** An asynchronous computation: it returns, throws, or makes a call and
    goes on with the answer. *)
Inductive io (A : Type) : Type :=
| Ret (a : A)
| Throw (err : error)
| Vis (X : Type) (e : eff X) (k : X -> io A).
Arguments Throw {A} err.
Arguments Vis {A X} e k.

Fixpoint bind {A B : Type} (p : io A) (f : A -> io B) : io B :=
  match p with
  | Ret a => f a
  | Throw err => Throw err
  | Vis e k => Vis e (fun x => bind (k x) f)
  end.

(** [try { p } catch (err) { h err }]. *)
Fixpoint try_catch {A : Type} (p : io A) (h : error -> io A) : io A :=
  match p with
  | Ret a => Ret a
  | Throw err => h err
  | Vis e k => Vis e (fun x => try_catch (k x) h)
  end.

(** A call whose answer is used as it is. *)
Definition perform {X : Type} (e : eff X) : io X := Vis e (fun x => Ret x).

(** [await] of a call that answers with a promise: a rejection is thrown. *)
Definition await {X : Type} (e : eff (result X)) : io X :=
  Vis e (fun r => match r with
                  | Resolved x => Ret x
                  | Rejected err => Throw err
                  end).

Declare Scope io_scope.
Delimit Scope io_scope with io.
Notation "x <- p ;; q" := (bind p (fun x => q))
  (at level 100, p at next level, right associativity) : io_scope.
Notation "p ;; q" := (bind p (fun _ => q))
  (at level 100, right associativity) : io_scope.
Open Scope io_scope.

(** ** The world *)

(** A recorded call. *)
Inductive call : Type :=
| Call (X : Type) (e : eff X).
Arguments Call {X} e.

(** The surroundings of one run of the handler: what the chat lookup
    answers, what the [n]-th lookup request (from 0) answers, and what the
    submission answers. *)
Record world := {
  chat_result : result chat;
  get_result : nat -> result response;
  post_result : result unit
}.

(** The answer to a call, given the number of lookup requests made so far. *)
Definition answer (w : world) (n : nat) {X : Type} (e : eff X) : X * nat :=
  match e in eff T return T * nat with
  | getChat _ => (chat_result w, n)
  | console_log _ => (tt, n)
  | console_error _ => (tt, n)
  | axios_get _ => (get_result w n, S n)
  | axios_post _ _ _ => (post_result w, n)
  | delay _ => (tt, n)
  end.

(** How an [async] function ends: its promise is fulfilled or rejected. *)
Inductive outcome (A : Type) : Type :=
| Fulfilled (a : A)
| Failed (err : error).
Arguments Failed {A} err.

(** A run: the calls made in order, the number of lookup requests made, and
    the outcome. *)
Fixpoint run {A : Type} (w : world) (n : nat) (p : io A)
  : list call * nat * outcome A :=
  match p with
  | Ret a => ([], n, Fulfilled a)
  | Throw err => ([], n, Failed err)
  | Vis e k =>
      let '(x, n1) := answer w n e in
      let '(tr, n2, o) := run w n1 (k x) in
      (Call e :: tr, n2, o)
  end.

Definition trace_of {A : Type} (r : list call * nat * outcome A) : list call :=
  fst (fst r).
Definition outcome_of {A : Type} (r : list call * nat * outcome A) : outcome A :=
  snd r.

(** The lookup requests of a trace, by URL. *)
Fixpoint lookups (tr : list call) : list jsstring :=
  match tr with
  | [] => []
  | Call e :: tr' =>
      match e with
      | axios_get url => url :: lookups tr'
      | _ => lookups tr'
      end
  end.

(** The submissions of a trace: URL, body and headers. *)
Fixpoint submissions (tr : list call)
  : list (jsstring * Payload.t * list (jsstring * jsstring)) :=
  match tr with
  | [] => []
  | Call e :: tr' =>
      match e with
      | axios_post url body headers => (url, body, headers) :: submissions tr'
      | _ => submissions tr'
      end
  end.

(** The network requests and timer waits of a trace, the console left out. *)
Inductive step : Type :=
| Lookup (url : jsstring)
| Submit (url : jsstring)
| Wait (ms : N).

Fixpoint schedule (tr : list call) : list step :=
  match tr with
  | [] => []
  | Call e :: tr' =>
      match e with
      | axios_get url => Lookup url :: schedule tr'
      | axios_post url _ _ => Submit url :: schedule tr'
      | delay ms => Wait ms :: schedule tr'
      | _ => schedule tr'
      end
  end.

(** ** The program (src/bot.js) *)

Definition space : code_unit := 32%N.
Definition hash : code_unit := 35%N.

(** Lines 33 to 39: the link and the identifier, from the message body. *)
Definition prefix : jsstring := js "https://listmoz.com/#".

Definition startIdx (body : jsstring) : Z := indexOf body prefix 0.

Definition endIdx (body : jsstring) : Z := indexOf body [space] (startIdx body).

Definition fullUrl (body : jsstring) : jsstring :=
  trim (substring body (startIdx body)
          (if (endIdx body =? -1)%Z then Z.of_nat (length body)
           else endIdx body)).

(** [fullUrl.split('#')[1]]; [None] is [undefined]. *)
Definition modUrl (body : jsstring) : option jsstring :=
  nth_error (split hash (fullUrl body)) 1.

Definition fetch_url (modUrl : jsstring) : jsstring :=
  js "https://listmoz.com/actions?action=FETCH&mod_url=" ++ modUrl.

Definition add_url : jsstring := js "https://listmoz.com/actions?action=ADD".

Definition json_headers : list (jsstring * jsstring) :=
  [(js "Content-Type", js "application/json")].

(** Lines 78 to 84, the [try] statement of the loop body at counter [i]:
    [Some d] when it returns [d] from the function, [None] when control
    falls through to the delay. *)
Definition attempt (modUrl : jsstring) (i : nat) : io (option fetch_data) :=
  try_catch
    (res <- await (axios_get (fetch_url modUrl)) ;;
     if truthy (read_url (data res)) then Ret (Some (data res))
     else
       perform (console_log
                  [js "WARNING: read_url not found, retrying ("
                     ++ of_nat (i + 1) ++ js ")..."]) ;;
       Ret None)
    (fun err =>
       perform (console_error [js "ERROR: " ++ message err]) ;;
       Ret None).

(** Lines 77 to 88: the loop with [remaining = maxRetries - i] rounds to
    go, then the [throw]. *)
Fixpoint for_loop (modUrl : jsstring) (maxRetries remaining i : nat)
  : io fetch_data :=
  match remaining with
  | 0 =>
      Throw {| message :=
                 js "read_url not found after max retries: "
                    ++ of_nat maxRetries |}
  | S remaining' =>
      r <- attempt modUrl i ;;
      match r with
      | Some d => Ret d
      | None =>
          perform (delay 30000) ;;
          for_loop modUrl maxRetries remaining' (S i)
      end
  end.

Definition waitForValidFetch (modUrl : jsstring) (maxRetries : nat)
  : io fetch_data :=
  for_loop modUrl maxRetries maxRetries 0.

(** The default value of the parameter [maxRetries]. *)
Definition default_maxRetries : nat := 100.

Section Handler.

(** The configured constants. *)
Variables TARGET_CHAT ITEM : jsstring.

(** [const { read_url, items = [] } = fetchRes]: the default applies to an
    absent field. *)
Definition items_or_default (d : fetch_data) : list item :=
  match items d with
  | Some l => l
  | None => []
  end.

(** [items.some(e => e.description === ITEM)]. *)
Definition alreadyExists (d : fetch_data) : bool :=
  existsb (fun e => eqb (description e) ITEM) (items_or_default d).

Definition payload (modUrl : jsstring) (d : fetch_data) : Payload.t :=
  {| Payload.description := ITEM;
     Payload.force_creation_of_new_list := false;
     Payload.mod_url := modUrl;
     Payload.read_url := read_url d |}.

(** Lines 45 to 69: the [try] statement of the handler. *)
Definition enrollment (fullUrl modUrl : jsstring) : io unit :=
  try_catch
    (fetchRes <- waitForValidFetch modUrl default_maxRetries ;;
     if alreadyExists fetchRes then
       perform (console_log
                  [js "WARNING: Enrollment skipped, because " ++ ITEM
                     ++ js " already exists"])
     else
       await (axios_post add_url (payload modUrl fetchRes) json_headers) ;;
       perform (console_log
                  [js "INFO: Enrollment successful for " ++ ITEM
                     ++ js " to " ++ fullUrl]))
    (fun err =>
       perform (console_error [js "ERROR: Enrollment failed:"; message err])).

(** Lines 26 to 70: the handler of the [message] event. *)
Definition on_message (msg : Msg.t) : io unit :=
  if negb (includes (Msg.from msg) (js "@g.us")) then Ret tt
  else
    chat <- await (getChat msg) ;;
    if negb (eqb (name chat) TARGET_CHAT) then Ret tt
    else if negb (includes (Msg.body msg) prefix) then Ret tt
    else
      match modUrl (Msg.body msg) with
      | None | Some [] => Ret tt
      | Some id =>
          perform (console_log [js "INFO: A new listmoz link has been dropped!"]) ;;
          perform (console_log [js "INFO: Mod URL: " ++ id]) ;;
          enrollment (fullUrl (Msg.body msg)) id
      end.

End Handler.

Arguments js : simpl never.
Arguments of_nat : simpl never.
Arguments attempt : simpl never.
Arguments waitForValidFetch : simpl never.
Arguments enrollment : simpl never.

(** ** Vocabulary of the statements *)

(** [sub] occurs in [s]. *)
Definition contains (s sub : jsstring) : Prop :=
  exists a b, s = a ++ sub ++ b.

(** [s] is [pre ++ sub ++ rest] and [sub] occurs nowhere earlier in [s]. *)
Definition first_occurrence (sub s pre rest : jsstring) : Prop :=
  s = pre ++ sub ++ rest /\
  forall a b, s = a ++ sub ++ b -> length pre <= length a.

(** The longest beginning of [s] free of code units satisfying [stop]. *)
Fixpoint up_to (stop : code_unit -> bool) (s : jsstring) : jsstring :=
  match s with
  | [] => []
  | c :: s' => if stop c then [] else c :: up_to stop s'
  end.

(** An identifier in a link, followed by a space: not empty, free of
    spaces and of the fragment delimiter, and not ending in white space. *)
Definition identifier (id : jsstring) : Prop :=
  id <> [] /\
  (forall c, In c id -> c <> space /\ c <> hash) /\
  is_white_space (last id space) = false.

(** The candidate link the way the specification words it: from the first
    occurrence of the prefix to the next white-space character or the end of
    the string, trimmed.  Compared with [fullUrl] below. *)
Definition candidate_to_whitespace (body : jsstring) : jsstring :=
  trim (up_to is_white_space (skipn (Z.to_nat (startIdx body)) body)).

(** A lookup response without a usable [read_url]. *)
Definition empty_read_url (d : fetch_data) : Prop :=
  read_url d = None \/ read_url d = Some [].

(** A lookup attempt that does not end the polling: the request fails, or
    its response has no usable [read_url]. *)
Definition lookup_fails (r : result response) : Prop :=
  (exists err, r = Rejected err) \/
  (exists res, r = Resolved res /\ empty_read_url (data res)).

(** A lookup attempt that answers the descriptor [d], with a non-empty
    [read_url]. *)
Definition lookup_ready (r : result response) (d : fetch_data) : Prop :=
  r = Resolved {| data := d |} /\
  exists c u, read_url d = Some (c :: u).

(** The first [n] lookup attempts fail and the next one answers [d]. *)
Definition ready_after (w : world) (n : nat) (d : fetch_data) : Prop :=
  (forall j, j < n -> lookup_fails (get_result w j)) /\
  lookup_ready (get_result w n) d.

(** The message comes from a group and its chat is the target chat. *)
Definition in_scope (TARGET_CHAT : jsstring) (w : world) (msg : Msg.t) : Prop :=
  contains (Msg.from msg) (js "@g.us") /\
  exists c, chat_result w = Resolved c /\ name c = TARGET_CHAT.

(** The message is in scope and its body carries a link with the non-empty
    identifier [id]. *)
Definition qualifies (TARGET_CHAT : jsstring) (w : world) (msg : Msg.t)
  (id : jsstring) : Prop :=
  in_scope TARGET_CHAT w msg /\
  contains (Msg.body msg) prefix /\
  modUrl (Msg.body msg) = Some id /\
  id <> [].

(** The first three calls of a run on a qualifying message. *)
Definition announcement (msg : Msg.t) (id : jsstring) : list call :=
  [Call (getChat msg);
   Call (console_log [js "INFO: A new listmoz link has been dropped!"]);
   Call (console_log [js "INFO: Mod URL: " ++ id])].

(** The error of an exhausted polling. *)
Definition exhaustion (maxRetries : nat) : error :=
  {| message := js "read_url not found after max retries: " ++ of_nat maxRetries |}.

(** The calls of [k] failing rounds of the polling for [id]: [k] lookups,
    each followed by the delay, and no submission. *)
Definition polled (id : jsstring) (k : nat) (tr : list call) : Prop :=
  lookups tr = repeat (fetch_url id) k /\
  submissions tr = [] /\
  schedule tr = concat (repeat [Lookup (fetch_url id); Wait 30000%N] k).

(** What the [try] statement of the handler does after the polling has ended
    with [o]: the calls it still makes. *)
Definition closing (ITEM : jsstring) (w : world) (fullUrl id : jsstring)
  (o : outcome fetch_data) : list call :=
  match o with
  | Failed err =>
      [Call (console_error [js "ERROR: Enrollment failed:"; message err])]
  | Fulfilled d =>
      if alreadyExists ITEM d then
        [Call (console_log
                 [js "WARNING: Enrollment skipped, because " ++ ITEM
                    ++ js " already exists"])]
      else
        Call (axios_post add_url (payload ITEM id d) json_headers)
        :: match post_result w with
           | Resolved _ =>
               [Call (console_log
                        [js "INFO: Enrollment successful for " ++ ITEM
                           ++ js " to " ++ fullUrl])]
           | Rejected err =>
               [Call (console_error
                        [js "ERROR: Enrollment failed:"; message err])]
           end
  end.

(** ** Concrete inputs *)

Module Sample.

Definition target_chat : jsstring := js "Hali Saha".
Definition the_item : jsstring := js "Furkan".

Definition group_msg (body : jsstring) : Msg.t :=
  {| Msg.from := js "120363041234567890@g.us"; Msg.body := body |}.

Definition direct_msg : Msg.t :=
  {| Msg.from := js "905551112233@c.us";
     Msg.body := js "https://listmoz.com/#abc123" |}.

Definition scenario_body : jsstring :=
  js "check this out https://listmoz.com/#abc123 thanks".

(** The link followed by a line feed instead of a space. *)
Definition newline_body : jsstring :=
  js "https://listmoz.com/#abc" ++ [10%N] ++ js "thanks".

Definition no_fragment_body : jsstring := js "https://listmoz.com/# hello".

Definition pending : fetch_data := {| read_url := None; items := None |}.

Definition listed : fetch_data :=
  {| read_url := Some (js "https://listmoz.com/#r1");
     items := Some [ {| description := js "Ali" |};
                     {| description := js "Furkan" |} ] |}.

Definition unlisted : fetch_data :=
  {| read_url := Some (js "https://listmoz.com/#r1");
     items := Some [ {| description := js "Ali" |};
                     {| description := js "furkan" |} ] |}.

Definition no_items : fetch_data :=
  {| read_url := Some (js "https://listmoz.com/#r1"); items := None |}.

Definition timeout_error : error := {| message := js "timeout of 0ms exceeded" |}.

(** Lookups fail in turn with an error and with an empty response. *)
Definition never_ready : world :=
  {| chat_result := Resolved {| name := target_chat |};
     get_result := fun n =>
       if Nat.even n then Rejected timeout_error
       else Resolved {| data := pending |};
     post_result := Resolved tt |}.

(** Two lookups without [read_url], then the descriptor [d]; the
    submission answers [post]. *)
Definition ready_third (d : fetch_data) (post : result unit) : world :=
  {| chat_result := Resolved {| name := target_chat |};
     get_result := fun n =>
       if Nat.ltb n 2 then Resolved {| data := pending |}
       else Resolved {| data := d |};
     post_result := post |}.

(** The chat lookup is rejected. *)
Definition chat_unavailable : world :=
  {| chat_result := Rejected timeout_error;
     get_result := fun _ => Resolved {| data := unlisted |};
     post_result := Resolved tt |}.

End Sample.

(** ** Vocabulary of the further statements *)

(** [segs.join(sep)] for a separator of one code unit. *)
Fixpoint join (sep : code_unit) (segs : list jsstring) : jsstring :=
  match segs with
  | [] => []
  | [seg] => seg
  | seg :: segs' => seg ++ sep :: join sep segs'
  end.

(** [sub] occurs in [s] at position [k]. *)
Definition occurs_at (sub s : jsstring) (k : nat) : Prop :=
  k <= length s /\ exists b, skipn k s = sub ++ b.

(** A console line: [console.log] or [console.error], with its arguments. *)
Inductive line : Type :=
| Logged (args : list jsstring)
| Errored (args : list jsstring).

(** The console lines of a trace, in order. *)
Fixpoint console (tr : list call) : list line :=
  match tr with
  | [] => []
  | Call e :: tr' =>
      match e with
      | console_log args => Logged args :: console tr'
      | console_error args => Errored args :: console tr'
      | _ => console tr'
      end
  end.

(** The console line of the failing round with counter [i] whose lookup
    answered [r]. *)
Definition retry_line (r : result response) (i : nat) : line :=
  match r with
  | Resolved _ =>
      Logged [js "WARNING: read_url not found, retrying ("
                ++ of_nat (i + 1) ++ js ")..."]
  | Rejected err => Errored [js "ERROR: " ++ message err]
  end.

(** The time spent waiting in a schedule, in milliseconds. *)
Fixpoint total_wait (sch : list step) : N :=
  match sch with
  | [] => 0
  | Wait ms :: sch' => ms + total_wait sch'
  | _ :: sch' => total_wait sch'
  end.

(** The line of a successful enrollment. *)
Definition success_line (ITEM fullUrl : jsstring) : list jsstring :=
  [js "INFO: Enrollment successful for " ++ ITEM ++ js " to " ++ fullUrl].

Unset Implicit Arguments.

(** ** Facts about strings *)

Section StringFacts.

(** The string operations on small inputs, as a JavaScript console answers
    them. *)
Example indexOf_examples :
  indexOf (js "abcabc") (js "c") 3 = 5%Z /\
  indexOf (js "abcabc") (js "ca") 0 = 2%Z /\
  indexOf (js "abc") (js "x") 0 = (-1)%Z /\
  indexOf (js "abc") [] 7 = 3%Z.
Proof. repeat split. Qed.

Example substring_examples :
  substring (js "abcdef") 1 4 = js "bcd" /\
  substring (js "abcdef") 4 1 = js "bcd" /\
  substring (js "abcdef") (-2) 99 = js "abcdef".
Proof. repeat split. Qed.

Example trim_example : trim ([9%N] ++ js " a b " ++ [10%N; 160%N]) = js "a b".
Proof. reflexivity. Qed.

Example split_examples :
  split hash (js "a#b##") = [js "a"; js "b"; []; []] /\
  split hash [] = [[]] /\
  nth_error (split hash (js "abc")) 1 = None.
Proof. repeat split. Qed.

(** A tab between the link and the space is trimmed; a link at the end of
    the body runs to the end. *)
Example fullUrl_examples :
  fullUrl (js "https://listmoz.com/#abc" ++ [9%N] ++ js " x")
    = js "https://listmoz.com/#abc" /\
  fullUrl (js "go https://listmoz.com/#abc") = js "https://listmoz.com/#abc" /\
  modUrl (js "https://listmoz.com/#a#b c") = Some (js "a").
Proof. repeat split. Qed.

Lemma eqb_eq (a b : jsstring) : eqb a b = true <-> a = b.
Proof.
  revert b; induction a as [|c a IH]; intros [|d b]; simpl;
    try (split; (reflexivity || discriminate)).
  rewrite andb_true_iff, N.eqb_eq, IH.
  split.
  - intros [-> ->]; reflexivity.
  - intros E; injection E; auto.
Qed.

Lemma eqb_refl (a : jsstring) : eqb a a = true.
Proof. apply eqb_eq; reflexivity. Qed.

Lemma starts_with_app (sub b : jsstring) : starts_with sub (sub ++ b) = true.
Proof.
  induction sub as [|c sub IH]; simpl; [reflexivity|].
  rewrite N.eqb_refl; exact IH.
Qed.

Lemma starts_with_true (sub t : jsstring) :
  starts_with sub t = true -> t = sub ++ skipn (length sub) t.
Proof.
  revert t; induction sub as [|c sub IH]; intros t H; simpl in *.
  - reflexivity.
  - destruct t as [|d t]; [discriminate|].
    apply andb_true_iff in H as [Hc Ht].
    apply N.eqb_eq in Hc; subst d.
    simpl; f_equal; apply (IH _ Ht).
Qed.

(** An occurrence after [a] is a match at position [length a]. *)
Lemma starts_with_at (sub a b : jsstring) :
  starts_with sub (skipn (length a) (a ++ sub ++ b)) = true.
Proof.
  rewrite skipn_app, skipn_all, Nat.sub_diag; simpl.
  apply starts_with_app.
Qed.

Lemma match_at_decompose (sub s : jsstring) (i : nat) :
  i <= length s ->
  starts_with sub (skipn i s) = true ->
  exists b, s = firstn i s ++ sub ++ b /\ length (firstn i s) = i.
Proof.
  intros Hi H.
  exists (skipn (length sub) (skipn i s)); split.
  - rewrite <- (starts_with_true _ _ H).
    symmetry; apply firstn_skipn.
  - apply firstn_length_le; exact Hi.
Qed.

Lemma search_Some (sub s : jsstring) (k m : nat) :
  search sub s k = Some m ->
  exists j, m = k + j /\ j <= length s /\
            starts_with sub (skipn j s) = true /\
            forall i, i < j -> starts_with sub (skipn i s) = false.
Proof.
  revert k; induction s as [|c s IH]; intros k; simpl.
  - destruct (starts_with sub []) eqn:E; [|discriminate].
    intros [= <-]; exists 0; repeat split; auto; lia.
  - destruct (starts_with sub (c :: s)) eqn:E.
    + intros [= <-]; exists 0; repeat split; auto; lia.
    + intros H; destruct (IH _ H) as (j & -> & Hj & Hm & Hlt).
      exists (S j); repeat split; simpl; auto; try lia.
      intros [|i] Hi; simpl; [exact E|apply Hlt; lia].
Qed.

Lemma search_None (sub s : jsstring) (k : nat) :
  search sub s k = None ->
  forall i, i <= length s -> starts_with sub (skipn i s) = false.
Proof.
  revert k; induction s as [|c s IH]; intros k; simpl.
  - destruct (starts_with sub []) eqn:E; [discriminate|].
    intros _ i Hi; replace i with 0 by lia; exact E.
  - destruct (starts_with sub (c :: s)) eqn:E; [discriminate|].
    intros H [|i] Hi; simpl; [exact E|].
    apply (IH _ H); lia.
Qed.

Lemma search_first (sub s : jsstring) (k j : nat) :
  j <= length s ->
  starts_with sub (skipn j s) = true ->
  (forall i, i < j -> starts_with sub (skipn i s) = false) ->
  search sub s k = Some (k + j).
Proof.
  revert s k; induction j as [|j IH]; intros s k Hj Hm Hlt.
  - simpl in Hm. destruct s; simpl; rewrite Hm; f_equal; lia.
  - destruct s as [|c s]; [simpl in Hj; lia|].
    pose proof (Hlt 0 ltac:(lia)) as H0; simpl in H0.
    simpl; rewrite H0.
    rewrite (IH s (S k)); [f_equal; lia|simpl in Hj; lia|exact Hm|].
    intros i Hi; apply (Hlt (S i)); lia.
Qed.

Lemma clamp_of_nat (len i : nat) : i <= len -> clamp len (Z.of_nat i) = i.
Proof. intros H; unfold clamp; lia. Qed.

Lemma first_occurrence_search (sub s pre rest : jsstring) :
  first_occurrence sub s pre rest -> search sub s 0 = Some (length pre).
Proof.
  intros [E Hmin].
  assert (Hlen : length pre <= length s)
    by (rewrite E, length_app; lia).
  apply (search_first sub s 0 _ Hlen).
  - rewrite E; apply starts_with_at.
  - intros i Hi.
    destruct (starts_with sub (skipn i s)) eqn:Hm; [|reflexivity].
    destruct (match_at_decompose sub s i) as (b & Hs & Hl); [lia|exact Hm|].
    specialize (Hmin _ _ Hs); lia.
Qed.

Lemma indexOf_first_occurrence (sub s pre rest : jsstring) :
  first_occurrence sub s pre rest -> indexOf s sub 0 = Z.of_nat (length pre).
Proof.
  intros H; unfold indexOf.
  change 0%Z with (Z.of_nat 0); rewrite clamp_of_nat by lia; simpl.
  rewrite (first_occurrence_search _ _ _ _ H); reflexivity.
Qed.

(** The first occurrence exists as soon as there is an occurrence. *)
Lemma contains_first_occurrence (sub s : jsstring) :
  contains s sub -> exists pre rest, first_occurrence sub s pre rest.
Proof.
  intros (a & b & E).
  destruct (search sub s 0) as [m|] eqn:Hs.
  - destruct (search_Some _ _ _ _ Hs) as (j & -> & Hj & Hm & Hlt).
    destruct (match_at_decompose sub s j Hj Hm) as (r & Hdec & Hl).
    exists (firstn j s), r; split; [exact Hdec|].
    intros a' b' E'; rewrite Hl.
    destruct (Nat.le_gt_cases j (length a')) as [|Hgt]; [assumption|].
    specialize (Hlt _ Hgt).
    rewrite E' in Hlt at 1; rewrite starts_with_at in Hlt; discriminate.
  - pose proof (search_None _ _ _ Hs (length a)) as Hn.
    rewrite E in Hn at 2; rewrite starts_with_at in Hn.
    assert (length a <= length s) by (rewrite E, length_app; lia).
    specialize (Hn H); discriminate.
Qed.

Lemma includes_contains (s sub : jsstring) :
  includes s sub = true <-> contains s sub.
Proof.
  unfold includes, indexOf.
  change 0%Z with (Z.of_nat 0); rewrite clamp_of_nat by lia; simpl.
  split.
  - destruct (search sub s 0) as [m|] eqn:Hs; [intros _|discriminate].
    destruct (search_Some _ _ _ _ Hs) as (j & _ & Hj & Hm & _).
    destruct (match_at_decompose sub s j Hj Hm) as (r & Hdec & _).
    exists (firstn j s), r; exact Hdec.
  - intros H; destruct (contains_first_occurrence _ _ H) as (pre & rest & Hf).
    rewrite (first_occurrence_search _ _ _ _ Hf).
    destruct (Z.eqb_spec (Z.of_nat (length pre)) (-1)); [lia|reflexivity].
Qed.

Lemma includes_false (s sub : jsstring) :
  ~ contains s sub -> includes s sub = false.
Proof.
  intros H; destruct (includes s sub) eqn:E; [|reflexivity].
  apply includes_contains in E; contradiction.
Qed.

End StringFacts.

(** ** The link and the identifier *)

Section Extraction.

Lemma search_unit_skip (c : code_unit) (u v : jsstring) (k : nat) :
  (forall x, In x u -> N.eqb c x = false) ->
  search [c] (u ++ v) k = search [c] v (k + length u).
Proof.
  revert k; induction u as [|d u IH]; intros k Hu; simpl.
  - f_equal; lia.
  - rewrite (Hu d) by (left; reflexivity); simpl.
    rewrite IH by (intros x Hx; apply Hu; right; exact Hx).
    f_equal; lia.
Qed.

Lemma search_unit_up_to (c : code_unit) (v : jsstring) (k : nat) :
  search [c] v k =
  if existsb (N.eqb c) v then Some (k + length (up_to (N.eqb c) v)) else None.
Proof.
  revert k; induction v as [|d v IH]; intros k; simpl; [reflexivity|].
  destruct (N.eqb c d); simpl.
  - f_equal; lia.
  - rewrite IH. destruct (existsb (N.eqb c) v); [f_equal; lia|reflexivity].
Qed.

Lemma up_to_length (stop : code_unit -> bool) (v : jsstring) :
  length (up_to stop v) <= length v.
Proof.
  induction v as [|d v IH]; simpl; [lia|].
  destruct (stop d); simpl; lia.
Qed.

Lemma firstn_up_to (stop : code_unit -> bool) (v : jsstring) :
  firstn (length (up_to stop v)) v = up_to stop v.
Proof.
  induction v as [|d v IH]; simpl; [reflexivity|].
  destruct (stop d); simpl; [reflexivity|f_equal; exact IH].
Qed.

Lemma up_to_all (stop : code_unit -> bool) (v : jsstring) :
  existsb stop v = false -> up_to stop v = v.
Proof.
  induction v as [|d v IH]; simpl; [reflexivity|].
  intros H; apply orb_false_iff in H as [-> Hv]; f_equal; auto.
Qed.

(** [up_to] stops at the first stopping unit. *)
Lemma up_to_app (stop : code_unit -> bool) (u v : jsstring) (c : code_unit) :
  (forall x, In x u -> stop x = false) -> stop c = true ->
  up_to stop (u ++ c :: v) = u.
Proof.
  intros Hu Hc; induction u as [|d u IH]; simpl.
  - rewrite Hc; reflexivity.
  - rewrite (Hu d) by (left; reflexivity).
    f_equal; apply IH; intros x Hx; apply Hu; right; exact Hx.
Qed.

Lemma substring_nat (s : jsstring) (a b : nat) :
  a <= b -> b <= length s ->
  substring s (Z.of_nat a) (Z.of_nat b) = firstn (b - a) (skipn a s).
Proof.
  intros Hab Hb; unfold substring.
  rewrite !clamp_of_nat by lia.
  rewrite Nat.max_r, Nat.min_l by lia; reflexivity.
Qed.

Lemma prefix_no_space : forall x, In x prefix -> N.eqb space x = false.
Proof.
  assert (H : forallb (fun x => negb (N.eqb space x)) prefix = true)
    by (vm_compute; reflexivity).
  intros x Hx; rewrite forallb_forall in H.
  apply negb_true_iff, H, Hx.
Qed.

(** Lines 36 to 38 on a body whose first link starts after [pre]: the link
    runs to the next space, or to the end, and is trimmed. *)
Lemma fullUrl_first_occurrence (body pre rest : jsstring) :
  first_occurrence prefix body pre rest ->
  fullUrl body = trim (prefix ++ up_to (N.eqb space) rest).
Proof.
  intros Hf; pose proof Hf as [E _].
  assert (Hlen : length body = length pre + length prefix + length rest)
    by (rewrite E, !length_app; lia).
  assert (Hskip : skipn (length pre) body = prefix ++ rest)
    by (rewrite E, skipn_app, skipn_all, Nat.sub_diag; reflexivity).
  unfold fullUrl, endIdx, startIdx.
  rewrite (indexOf_first_occurrence _ _ _ _ Hf).
  unfold indexOf at 1 2.
  rewrite clamp_of_nat by lia.
  rewrite Hskip, (search_unit_skip _ _ _ _ prefix_no_space), search_unit_up_to.
  pose proof (up_to_length (N.eqb space) rest) as Hup.
  destruct (existsb (N.eqb space) rest) eqn:Hsp.
  - destruct (Z.eqb_spec
                (Z.of_nat (length pre + length prefix
                           + length (up_to (N.eqb space) rest))) (-1)) as [|_];
      [lia|].
    rewrite substring_nat by lia.
    rewrite Hskip.
    replace (length pre + length prefix + length (up_to (N.eqb space) rest)
             - length pre)
      with (length prefix + length (up_to (N.eqb space) rest)) by lia.
    rewrite firstn_app_2, firstn_up_to; reflexivity.
  - simpl (_ =? _)%Z; cbv iota.
    rewrite substring_nat by lia.
    rewrite Hskip, firstn_all2 by (rewrite length_app; lia).
    rewrite (up_to_all _ _ Hsp); reflexivity.
Qed.

Lemma trimStart_fixed (c : code_unit) (u : jsstring) :
  is_white_space c = false -> trimStart (c :: u) = c :: u.
Proof. intros H; simpl; rewrite H; reflexivity. Qed.

Lemma trim_fixed (c d : code_unit) (u : jsstring) :
  is_white_space c = false -> is_white_space d = false ->
  trim (c :: u ++ [d]) = c :: u ++ [d].
Proof.
  intros Hc Hd; unfold trim, trimEnd.
  rewrite (trimStart_fixed _ _ Hc).
  change (c :: u ++ [d]) with ((c :: u) ++ [d]).
  rewrite rev_unit, (trimStart_fixed _ _ Hd).
  rewrite <- rev_unit; apply rev_involutive.
Qed.

Lemma split_no_sep (sep : code_unit) (v : jsstring) :
  (forall x, In x v -> x <> sep) -> split sep v = [v].
Proof.
  induction v as [|d v IH]; intros Hv; simpl; [reflexivity|].
  destruct (N.eqb_spec d sep) as [->|_].
  - exfalso; apply (Hv sep); [left|]; reflexivity.
  - rewrite IH by (intros x Hx; apply Hv; right; exact Hx); reflexivity.
Qed.

Lemma split_at_sep (sep : code_unit) (u v : jsstring) :
  (forall x, In x u -> x <> sep) ->
  split sep (u ++ sep :: v) = u :: split sep v.
Proof.
  induction u as [|d u IH]; intros Hu; simpl.
  - rewrite N.eqb_refl; reflexivity.
  - destruct (N.eqb_spec d sep) as [->|_].
    + exfalso; apply (Hu sep); [left|]; reflexivity.
    + rewrite IH by (intros x Hx; apply Hu; right; exact Hx); reflexivity.
Qed.

(** The prefix is the address, then the fragment delimiter. *)
Lemma prefix_split :
  prefix = js "https://listmoz.com/" ++ [hash] /\
  forall x, In x (js "https://listmoz.com/") -> x <> hash.
Proof.
  split; [vm_compute; reflexivity|].
  assert (H : forallb (fun x => negb (N.eqb x hash)) (js "https://listmoz.com/")
              = true) by (vm_compute; reflexivity).
  intros x Hx; rewrite forallb_forall in H.
  specialize (H x Hx); apply negb_true_iff in H.
  apply N.eqb_neq; exact H.
Qed.

(** A link made of the prefix and an identifier is left as it is by [trim]
    and splits into the address and the identifier. *)
Lemma link_of_identifier (id : jsstring) :
  identifier id ->
  trim (prefix ++ id) = prefix ++ id /\
  nth_error (split hash (prefix ++ id)) 1 = Some id.
Proof.
  intros (Hne & Hid & Hlast); split.
  - destruct (exists_last Hne) as (u & d & ->).
    rewrite last_last in Hlast.
    replace (prefix ++ u ++ [d]) with (104%N :: (tl prefix ++ u) ++ [d])
      by (rewrite <- app_assoc; reflexivity).
    apply trim_fixed; [reflexivity|exact Hlast].
  - destruct prefix_split as [-> Hp].
    rewrite <- app_assoc; simpl ([hash] ++ id).
    rewrite (split_at_sep _ _ _ Hp), split_no_sep; [reflexivity|].
    intros x Hx; apply Hid; exact Hx.
Qed.

End Extraction.

(** ** Runs *)

Section Runs.

Variable w : world.

Lemma run_bind {A B : Type} (p : io A) (f : A -> io B) (n : nat) :
  run w n (bind p f) =
  match run w n p with
  | (tr, n1, Fulfilled a) =>
      let '(tr2, n2, o) := run w n1 (f a) in (tr ++ tr2, n2, o)
  | (tr, n1, Failed err) => (tr, n1, Failed err)
  end.
Proof.
  revert n; induction p as [a|err|X e k IH]; intros n; simpl.
  - destruct (run w n (f a)) as [[tr2 n2] o]; reflexivity.
  - reflexivity.
  - destruct (answer w n e) as [x n1].
    rewrite IH.
    destruct (run w n1 (k x)) as [[tr n2] [a|err]]; [|reflexivity].
    destruct (run w n2 (f a)) as [[tr2 n3] o]; reflexivity.
Qed.

Lemma run_try_catch {A : Type} (p : io A) (h : error -> io A) (n : nat) :
  run w n (try_catch p h) =
  match run w n p with
  | (tr, n1, Fulfilled a) => (tr, n1, Fulfilled a)
  | (tr, n1, Failed err) =>
      let '(tr2, n2, o) := run w n1 (h err) in (tr ++ tr2, n2, o)
  end.
Proof.
  revert n; induction p as [a|err|X e k IH]; intros n; simpl.
  - reflexivity.
  - destruct (run w n (h err)) as [[tr2 n2] o]; reflexivity.
  - destruct (answer w n e) as [x n1].
    rewrite IH.
    destruct (run w n1 (k x)) as [[tr n2] [a|err]]; [reflexivity|].
    destruct (run w n2 (h err)) as [[tr2 n3] o]; reflexivity.
Qed.

Lemma lookups_app (a b : list call) : lookups (a ++ b) = lookups a ++ lookups b.
Proof.
  induction a as [|[X e] a IH]; simpl; [reflexivity|].
  destruct e; simpl; rewrite IH; reflexivity.
Qed.

Lemma submissions_app (a b : list call) :
  submissions (a ++ b) = submissions a ++ submissions b.
Proof.
  induction a as [|[X e] a IH]; simpl; [reflexivity|].
  destruct e; simpl; rewrite IH; reflexivity.
Qed.

Lemma schedule_app (a b : list call) :
  schedule (a ++ b) = schedule a ++ schedule b.
Proof.
  induction a as [|[X e] a IH]; simpl; [reflexivity|].
  destruct e; simpl; rewrite IH; reflexivity.
Qed.

(** *** The polling loop *)

Variable id : jsstring.

(** One round of the loop, by what the lookup answers. *)
Lemma run_attempt (n i : nat) :
  run w n (attempt id i) =
  match get_result w n with
  | Resolved res =>
      if truthy (read_url (data res))
      then ([Call (axios_get (fetch_url id))], S n, Fulfilled (Some (data res)))
      else ([Call (axios_get (fetch_url id));
             Call (console_log
                     [js "WARNING: read_url not found, retrying ("
                        ++ of_nat (i + 1) ++ js ")..."])],
            S n, Fulfilled None)
  | Rejected err =>
      ([Call (axios_get (fetch_url id));
        Call (console_error [js "ERROR: " ++ message err])],
       S n, Fulfilled None)
  end.
Proof.
  unfold attempt; simpl.
  destruct (get_result w n) as [res|err]; simpl; [|reflexivity].
  destruct (truthy (read_url (data res))); reflexivity.
Qed.

Lemma truthy_empty (d : fetch_data) :
  empty_read_url d -> truthy (read_url d) = false.
Proof. intros [-> | ->]; reflexivity. Qed.

(** A failing round: the request, one console line, no result. *)
Lemma run_attempt_fails (n i : nat) :
  lookup_fails (get_result w n) ->
  exists line,
    run w n (attempt id i) =
      ([Call (axios_get (fetch_url id)); line], S n, Fulfilled None) /\
    lookups [line] = [] /\ submissions [line] = [] /\ schedule [line] = [].
Proof.
  intros H; rewrite run_attempt.
  destruct H as [[err ->] | (res & -> & He)].
  - eexists; repeat split.
  - rewrite (truthy_empty _ He); eexists; repeat split.
Qed.

Lemma run_attempt_ready (n i : nat) (d : fetch_data) :
  lookup_ready (get_result w n) d ->
  run w n (attempt id i) =
    ([Call (axios_get (fetch_url id))], S n, Fulfilled (Some d)).
Proof.
  intros [E (c & u & Hd)]; rewrite run_attempt, E; simpl.
  rewrite Hd; reflexivity.
Qed.

Lemma polled_round (k : nat) (line : call) (tr : list call) :
  lookups [line] = [] -> submissions [line] = [] -> schedule [line] = [] ->
  polled id k tr ->
  polled id (S k)
    ([Call (axios_get (fetch_url id)); line] ++ Call (delay 30000) :: tr).
Proof.
  intros Hl Hs Hsch (Pl & Ps & Psch).
  change ([Call (axios_get (fetch_url id)); line] ++ Call (delay 30000) :: tr)
    with ([Call (axios_get (fetch_url id))] ++ [line]
            ++ [Call (delay 30000)] ++ tr).
  unfold polled.
  rewrite !lookups_app, !submissions_app, !schedule_app, Hl, Hs, Hsch.
  simpl; rewrite Pl, Ps, Psch; auto.
Qed.

Lemma for_loop_S (maxRetries remaining i : nat) :
  for_loop id maxRetries (S remaining) i =
  (r <- attempt id i ;;
   match r with
   | Some d => Ret d
   | None => perform (delay 30000) ;; for_loop id maxRetries remaining (S i)
   end).
Proof. reflexivity. Qed.

Lemma for_loop_exhausts (maxRetries remaining n i : nat) :
  (forall j, j < remaining -> lookup_fails (get_result w (n + j))) ->
  exists tr,
    run w n (for_loop id maxRetries remaining i) =
      (tr, n + remaining, Failed (exhaustion maxRetries)) /\
    polled id remaining tr.
Proof.
  revert n i; induction remaining as [|r IH]; intros n i H.
  - exists []; simpl; rewrite Nat.add_0_r; repeat split.
  - destruct (run_attempt_fails n i) as (line & Hrun & Hl & Hs & Hsch).
    { rewrite <- (Nat.add_0_r n); apply H; lia. }
    destruct (IH (S n) (S i)) as (tr & Hrec & Hp).
    { intros j Hj; replace (S n + j) with (n + S j) by lia; apply H; lia. }
    eexists; split.
    + rewrite for_loop_S, run_bind, Hrun; simpl.
      rewrite Hrec; simpl.
      replace (S (n + r)) with (n + S r) by lia; reflexivity.
    + apply polled_round; assumption.
Qed.

Lemma for_loop_ready (maxRetries remaining k n i : nat) (d : fetch_data) :
  k < remaining ->
  (forall j, j < k -> lookup_fails (get_result w (n + j))) ->
  lookup_ready (get_result w (n + k)) d ->
  exists tr,
    run w n (for_loop id maxRetries remaining i) =
      (tr ++ [Call (axios_get (fetch_url id))], n + k + 1, Fulfilled d) /\
    polled id k tr.
Proof.
  revert remaining n i; induction k as [|k IH]; intros remaining n i Hk H Hr.
  - destruct remaining as [|r]; [lia|].
    exists []; split; [|repeat split].
    rewrite Nat.add_0_r in Hr.
    rewrite for_loop_S, run_bind, (run_attempt_ready _ _ _ Hr); simpl.
    do 2 f_equal; lia.
  - destruct remaining as [|r]; [lia|].
    destruct (run_attempt_fails n i) as (line & Hrun & Hl & Hs & Hsch).
    { rewrite <- (Nat.add_0_r n); apply H; lia. }
    destruct (IH r (S n) (S i)) as (tr & Hrec & Hp).
    { lia. }
    { intros j Hj; replace (S n + j) with (n + S j) by lia; apply H; lia. }
    { replace (S n + k) with (n + S k) by lia; exact Hr. }
    exists ([Call (axios_get (fetch_url id)); line] ++ Call (delay 30000) :: tr).
    split.
    + rewrite for_loop_S, run_bind, Hrun; simpl.
      rewrite Hrec; simpl.
      replace (S (n + k + 1)) with (n + S k + 1) by lia.
      reflexivity.
    + apply (polled_round k line tr); assumption.
Qed.

(** Whatever the lookups answer, the loop ends: with a descriptor, or with
    the exhaustion error; it submits nothing, and every rejected lookup
    leaves its message on [console.error]. *)
Lemma for_loop_total (maxRetries remaining n i : nat) :
  exists tr n' o,
    run w n (for_loop id maxRetries remaining i) = (tr, n', o) /\
    submissions tr = [] /\
    (o = Failed (exhaustion maxRetries) \/ exists d, o = Fulfilled d) /\
    (forall j err,
       n <= j < n' -> get_result w j = Rejected err ->
       In (Call (console_error [js "ERROR: " ++ message err])) tr).
Proof.
  revert n i; induction remaining as [|r IH]; intros n i.
  - exists [], n, (Failed (exhaustion maxRetries)); simpl.
    repeat split; auto; intros j err Hj; lia.
  - destruct (IH (S n) (S i)) as (tr & n' & o & Hrec & Hs & Ho & Hlog).
    rewrite for_loop_S, run_bind, run_attempt.
    destruct (get_result w n) as [res|err0] eqn:Hn.
    + destruct (truthy (read_url (data res))); simpl.
      * do 3 eexists; repeat split; [right; eexists; reflexivity|].
        intros j err Hj Hrej.
        replace j with n in Hrej by lia; congruence.
      * rewrite Hrec; simpl.
        do 3 eexists; repeat split; [exact Hs|exact Ho|].
        intros j err Hj Hrej.
        destruct (Nat.eq_dec j n) as [->|Hne]; [congruence|].
        do 3 right; apply (Hlog j err); [lia|exact Hrej].
    + simpl; rewrite Hrec; simpl.
      do 3 eexists; repeat split; [exact Hs|exact Ho|].
      intros j err Hj Hrej.
      destruct (Nat.eq_dec j n) as [->|Hne].
      * right; left. rewrite Hn in Hrej; injection Hrej as ->; reflexivity.
      * do 3 right; apply (Hlog j err); [lia|exact Hrej].
Qed.

End Runs.

(** ** The handler *)

Arguments includes : simpl never.
Arguments modUrl : simpl never.
Arguments fullUrl : simpl never.
Arguments eqb : simpl never.

Section HandlerRuns.

Variables TARGET_CHAT ITEM : jsstring.
Variable w : world.

Lemma alreadyExists_true (d : fetch_data) :
  alreadyExists ITEM d = true <->
  exists e, In e (items_or_default d) /\ description e = ITEM.
Proof.
  unfold alreadyExists; rewrite existsb_exists.
  split; intros (e & Hin & He); exists e; split; auto; apply eqb_eq; exact He.
Qed.

Lemma alreadyExists_false (d : fetch_data) :
  alreadyExists ITEM d = false <->
  forall e, In e (items_or_default d) -> description e <> ITEM.
Proof.
  split.
  - intros H e Hin He.
    assert (Ht : alreadyExists ITEM d = true)
      by (apply alreadyExists_true; exists e; auto).
    congruence.
  - intros H; destruct (alreadyExists ITEM d) eqn:E; [|reflexivity].
    apply alreadyExists_true in E as (e & Hin & He).
    exfalso; exact (H e Hin He).
Qed.

(** The [try] statement of the handler never throws: it runs the polling,
    then the closing calls. *)
Lemma run_enrollment (full id : jsstring) :
  run w 0 (enrollment ITEM full id) =
  let '(tr, n, o) := run w 0 (waitForValidFetch id default_maxRetries) in
  (tr ++ closing ITEM w full id o, n, Fulfilled tt).
Proof.
  unfold enrollment; rewrite run_try_catch, run_bind.
  destruct (run w 0 (waitForValidFetch id default_maxRetries))
    as [[tr n] [d|err]]; simpl; [|reflexivity].
  destruct (alreadyExists ITEM d); simpl; [reflexivity|].
  destruct (post_result w) as [[]|err]; simpl;
    rewrite <- ?app_assoc; reflexivity.
Qed.

(** A qualifying message: the chat lookup, the two announcements, then the
    [try] statement. *)
Lemma run_on_message (msg : Msg.t) (id : jsstring) :
  qualifies TARGET_CHAT w msg id ->
  run w 0 (on_message TARGET_CHAT ITEM msg) =
  let '(tr, n, o) := run w 0 (enrollment ITEM (fullUrl (Msg.body msg)) id) in
  (announcement msg id ++ tr, n, o).
Proof.
  intros ((Hfrom & c & Hchat & Hname) & Hbody & Hmod & Hne).
  unfold on_message.
  apply includes_contains in Hfrom, Hbody.
  rewrite Hfrom; cbn.
  rewrite Hchat; cbn.
  rewrite Hname, eqb_refl, Hbody, Hmod; cbn.
  destruct id as [|x id']; [contradiction|]; cbn.
  destruct (run w 0 (enrollment ITEM (fullUrl (Msg.body msg)) (x :: id')))
    as [[tr n] o]; reflexivity.
Qed.

(** The whole run on a qualifying message, from the run of the polling. *)
Lemma run_qualifying (msg : Msg.t) (id : jsstring)
  (tr : list call) (n : nat) (o : outcome fetch_data) :
  qualifies TARGET_CHAT w msg id ->
  run w 0 (waitForValidFetch id default_maxRetries) = (tr, n, o) ->
  run w 0 (on_message TARGET_CHAT ITEM msg) =
  (announcement msg id ++ tr
     ++ closing ITEM w (fullUrl (Msg.body msg)) id o, n, Fulfilled tt).
Proof.
  intros Hq Hrun.
  rewrite (run_on_message _ _ Hq), run_enrollment, Hrun; reflexivity.
Qed.

Lemma run_ready (id : jsstring) (k : nat) (d : fetch_data) :
  k < default_maxRetries -> ready_after w k d ->
  exists tr,
    run w 0 (waitForValidFetch id default_maxRetries) =
      (tr ++ [Call (axios_get (fetch_url id))], k + 1, Fulfilled d) /\
    polled id k tr.
Proof.
  intros Hk [Hfail Hready].
  apply (for_loop_ready w id default_maxRetries default_maxRetries k 0 0 d Hk);
    assumption.
Qed.

End HandlerRuns.

(** ** Properties of the specification *)

(** Sample messages qualify once the body carries a link. *)
Lemma sample_qualifies (w : world) (body id : jsstring) :
  chat_result w = Resolved {| name := Sample.target_chat |} ->
  includes body prefix = true ->
  modUrl body = Some id ->
  id <> [] ->
  qualifies Sample.target_chat w (Sample.group_msg body) id.
Proof.
  intros Hc Hb Hm Hne; repeat split.
  - apply includes_contains; vm_compute; reflexivity.
  - eexists; split; [exact Hc|reflexivity].
  - apply includes_contains; exact Hb.
  - exact Hm.
  - exact Hne.
Qed.

Lemma first_occurrence_check (sub s pre rest : jsstring) :
  s = pre ++ sub ++ rest ->
  search sub s 0 = Some (length pre) ->
  first_occurrence sub s pre rest.
Proof.
  intros E Hs; split; [exact E|].
  intros a b E'.
  destruct (search_Some _ _ _ _ Hs) as (j & Hj & _ & _ & Hlt).
  simpl in Hj; subst j.
  destruct (Nat.le_gt_cases (length pre) (length a)) as [|Hgt]; [assumption|].
  specialize (Hlt _ Hgt).
  rewrite E' in Hlt at 1; rewrite starts_with_at in Hlt; discriminate.
Qed.

(** C5. In an in-scope message whose body holds, as its first link, the
    prefix immediately followed by an identifier [id] (not empty, without
    space or fragment delimiter, not ending in white space), then a space
    and trailing text, the full URL is the prefix with [id] (the substring
    from the prefix up to the first space) and the identifier is exactly
    [id]; the handler announces [id] and looks it up. *)
Theorem extraction_of_identifier
  (TARGET_CHAT ITEM : jsstring) (w : world) (msg : Msg.t)
  (pre id rest : jsstring) :
  in_scope TARGET_CHAT w msg ->
  first_occurrence prefix (Msg.body msg) pre (id ++ space :: rest) ->
  identifier id ->
  fullUrl (Msg.body msg) = prefix ++ id /\
  modUrl (Msg.body msg) = Some id /\
  exists tr,
    trace_of (run w 0 (on_message TARGET_CHAT ITEM msg)) =
      announcement msg id ++ Call (axios_get (fetch_url id)) :: tr.
Proof.
  intros Hscope Hf Hid.
  destruct (link_of_identifier id Hid) as [Htrim Hsplit].
  assert (Hfull : fullUrl (Msg.body msg) = prefix ++ id).
  { rewrite (fullUrl_first_occurrence _ _ _ Hf), up_to_app; [exact Htrim| |].
    - intros x Hx. destruct Hid as (_ & Hid & _).
      destruct (Hid x Hx) as [Hsp _].
      destruct (N.eqb_spec space x) as [<-|]; [contradiction|reflexivity].
    - reflexivity. }
  assert (Hmod : modUrl (Msg.body msg) = Some id)
    by (unfold modUrl; rewrite Hfull; exact Hsplit).
  split; [exact Hfull|split; [exact Hmod|]].
  assert (Hq : qualifies TARGET_CHAT w msg id).
  { split; [exact Hscope|split; [|split; [exact Hmod|apply Hid]]].
    destruct Hf as [E _]; eexists; eexists; exact E. }
  destruct (for_loop_total w id default_maxRetries 99 1 1)
    as (tr & n & o & Hrec & _).
  rewrite (run_on_message TARGET_CHAT ITEM w msg id Hq), run_enrollment.
  unfold waitForValidFetch, default_maxRetries.
  rewrite for_loop_S, run_bind, run_attempt.
  destruct (get_result w 0) as [res|err]; cbn -[for_loop].
  - destruct (truthy (read_url (data res))); cbn -[for_loop].
    + eexists; reflexivity.
    + destruct (run w 1 (for_loop id 100 99 1)) as [[tr1 n1] o1]; cbn.
      eexists; reflexivity.
  - destruct (run w 1 (for_loop id 100 99 1)) as [[tr1 n1] o1]; cbn.
    eexists; reflexivity.
Qed.

Lemma extraction_of_identifier_witness :
  in_scope Sample.target_chat Sample.never_ready
    (Sample.group_msg Sample.scenario_body) /\
  first_occurrence prefix Sample.scenario_body (js "check this out ")
    (js "abc123" ++ space :: js "thanks") /\
  identifier (js "abc123") /\
  fullUrl Sample.scenario_body = js "https://listmoz.com/#abc123" /\
  modUrl Sample.scenario_body = Some (js "abc123").
Proof.
  assert (Hs : in_scope Sample.target_chat Sample.never_ready
                 (Sample.group_msg Sample.scenario_body)).
  { split; [apply includes_contains; vm_compute; reflexivity|].
    eexists; split; reflexivity. }
  assert (Hf : first_occurrence prefix Sample.scenario_body
                 (js "check this out ") (js "abc123" ++ space :: js "thanks")).
  { apply first_occurrence_check; vm_compute; reflexivity. }
  assert (Hi : identifier (js "abc123")).
  { split; [discriminate|split; [|reflexivity]].
    intros c Hc; vm_compute in Hc.
    repeat (destruct Hc as [<-|Hc]; [split; discriminate|]).
    destruct Hc. }
  split; [exact Hs|split; [exact Hf|split; [exact Hi|]]].
  destruct (extraction_of_identifier Sample.target_chat Sample.the_item
              Sample.never_ready (Sample.group_msg Sample.scenario_body)
              (js "check this out ") (js "abc123") (js "thanks") Hs Hf Hi)
    as (Hfull & Hmod & _).
  split; [exact Hfull|exact Hmod].
Defined.

(** C6, as stated, fails: a line feed after the link does not end it.  On
    the body made of the link, a line feed and a word, the specification's
    wording gives the link alone, while the code takes everything up to the
    end of the string, so the identifier carries the line feed and the
    word. *)
Lemma whitespace_does_not_end_link :
  candidate_to_whitespace Sample.newline_body = js "https://listmoz.com/#abc" /\
  fullUrl Sample.newline_body =
    js "https://listmoz.com/#abc" ++ [10%N] ++ js "thanks" /\
  modUrl Sample.newline_body = Some (js "abc" ++ [10%N] ++ js "thanks") /\
  fullUrl Sample.newline_body <> candidate_to_whitespace Sample.newline_body.
Proof.
  repeat split; try (vm_compute; reflexivity).
  vm_compute; discriminate.
Qed.

(** C6, amended. For every body containing the prefix, the candidate link
    spans from the first occurrence of the prefix to the next space
    character (U+0020), or to the end of the string when no space follows;
    surrounding white space is then trimmed; the identifier is the second
    segment of the candidate split on the fragment delimiter. *)
Theorem link_ends_at_space (body : jsstring) :
  contains body prefix ->
  exists pre rest,
    first_occurrence prefix body pre rest /\
    fullUrl body = trim (prefix ++ up_to (N.eqb space) rest) /\
    modUrl body = nth_error (split hash (fullUrl body)) 1.
Proof.
  intros H.
  destruct (contains_first_occurrence _ _ H) as (pre & rest & Hf).
  exists pre, rest; split; [exact Hf|split; [|reflexivity]].
  apply (fullUrl_first_occurrence _ _ _ Hf).
Qed.

Lemma link_ends_at_space_witness :
  contains Sample.newline_body prefix /\
  exists pre rest,
    first_occurrence prefix Sample.newline_body pre rest /\
    fullUrl Sample.newline_body = trim (prefix ++ up_to (N.eqb space) rest) /\
    modUrl Sample.newline_body =
      nth_error (split hash (fullUrl Sample.newline_body)) 1.
Proof.
  assert (H : contains Sample.newline_body prefix).
  { exists [], (js "abc" ++ [10%N] ++ js "thanks"); vm_compute; reflexivity. }
  split; [exact H|].
  exact (link_ends_at_space Sample.newline_body H).
Defined.

(** C8. A message whose origin does not carry the group marker ends the
    handler at once: no call at all is made, the chat lookup included, and
    the handler returns. *)
Theorem direct_message_ignored
  (TARGET_CHAT ITEM : jsstring) (w : world) (n : nat) (msg : Msg.t) :
  ~ contains (Msg.from msg) (js "@g.us") ->
  run w n (on_message TARGET_CHAT ITEM msg) = ([], n, Fulfilled tt).
Proof.
  intros H; unfold on_message.
  rewrite (includes_false _ _ H); reflexivity.
Qed.

Lemma direct_message_ignored_witness :
  ~ contains (Msg.from Sample.direct_msg) (js "@g.us") /\
  run Sample.chat_unavailable 0
    (on_message Sample.target_chat Sample.the_item Sample.direct_msg)
  = ([], 0, Fulfilled tt).
Proof.
  assert (H : ~ contains (Msg.from Sample.direct_msg) (js "@g.us")).
  { intros Hc; apply includes_contains in Hc; vm_compute in Hc; discriminate. }
  split; [exact H|].
  exact (direct_message_ignored Sample.target_chat Sample.the_item
           Sample.chat_unavailable 0 Sample.direct_msg H).
Defined.

(** C9. In an in-scope message whose body contains the prefix, when the
    candidate link has no second segment on the fragment delimiter, or an
    empty one, the handler returns after the chat lookup: no lookup
    request, no submission, no other call. *)
Theorem link_without_fragment_ignored
  (TARGET_CHAT ITEM : jsstring) (w : world) (msg : Msg.t) :
  in_scope TARGET_CHAT w msg ->
  contains (Msg.body msg) prefix ->
  nth_error (split hash (fullUrl (Msg.body msg))) 1 = None \/
  nth_error (split hash (fullUrl (Msg.body msg))) 1 = Some [] ->
  run w 0 (on_message TARGET_CHAT ITEM msg)
  = ([Call (getChat msg)], 0, Fulfilled tt).
Proof.
  intros (Hfrom & c & Hchat & Hname) Hbody Hmod.
  apply includes_contains in Hfrom, Hbody.
  unfold on_message.
  rewrite Hfrom; cbn.
  rewrite Hchat; cbn.
  rewrite Hname, eqb_refl, Hbody; cbn.
  unfold modUrl; destruct Hmod as [-> | ->]; reflexivity.
Qed.

Lemma link_without_fragment_ignored_witness :
  in_scope Sample.target_chat Sample.never_ready
    (Sample.group_msg Sample.no_fragment_body) /\
  contains Sample.no_fragment_body prefix /\
  nth_error (split hash (fullUrl Sample.no_fragment_body)) 1 = Some [] /\
  run Sample.never_ready 0
    (on_message Sample.target_chat Sample.the_item
       (Sample.group_msg Sample.no_fragment_body))
  = ([Call (getChat (Sample.group_msg Sample.no_fragment_body))], 0,
     Fulfilled tt).
Proof.
  assert (Hs : in_scope Sample.target_chat Sample.never_ready
                 (Sample.group_msg Sample.no_fragment_body)).
  { split; [apply includes_contains; vm_compute; reflexivity|].
    eexists; split; reflexivity. }
  assert (Hc : contains Sample.no_fragment_body prefix).
  { exists [], (js " hello"); vm_compute; reflexivity. }
  assert (Hm : nth_error (split hash (fullUrl Sample.no_fragment_body)) 1
               = Some []) by (vm_compute; reflexivity).
  split; [exact Hs|split; [exact Hc|split; [exact Hm|]]].
  exact (link_without_fragment_ignored Sample.target_chat Sample.the_item
           Sample.never_ready (Sample.group_msg Sample.no_fragment_body)
           Hs Hc (or_intror Hm)).
Defined.

(** C1. When each of the first [maxRetries] lookup attempts fails, by an
    error or by a response without a usable [read_url], the polling makes
    exactly [maxRetries] lookup requests and then throws the exhaustion
    error; no submission is made.  In the handler, which polls with the
    default bound, the error is caught and logged, and the run ends with no
    submission. *)
Theorem exhaustion_after_max_retries
  (TARGET_CHAT ITEM : jsstring) (w : world) (msg : Msg.t) (id : jsstring)
  (maxRetries : nat) :
  (forall j, j < maxRetries -> lookup_fails (get_result w j)) ->
  (exists tr,
     run w 0 (waitForValidFetch id maxRetries)
       = (tr, maxRetries, Failed (exhaustion maxRetries)) /\
     lookups tr = repeat (fetch_url id) maxRetries /\
     submissions tr = []) /\
  (maxRetries = default_maxRetries ->
   qualifies TARGET_CHAT w msg id ->
   exists tr,
     run w 0 (on_message TARGET_CHAT ITEM msg)
       = (tr ++ [Call (console_error
                         [js "ERROR: Enrollment failed:";
                          message (exhaustion default_maxRetries)])],
          default_maxRetries, Fulfilled tt) /\
     lookups tr = repeat (fetch_url id) default_maxRetries /\
     submissions tr = []).
Proof.
  intros H.
  destruct (for_loop_exhausts w id maxRetries maxRetries 0 0 H)
    as (tr & Hrun & Hl & Hs & _).
  split.
  - exists tr; auto.
  - intros -> Hq.
    exists (announcement msg id ++ tr); split.
    + rewrite (run_qualifying _ _ _ _ _ _ _ _ Hq Hrun).
      rewrite <- app_assoc; reflexivity.
    + rewrite lookups_app, submissions_app, Hl, Hs; split; reflexivity.
Qed.

Lemma never_ready_fails (j : nat) :
  lookup_fails (get_result Sample.never_ready j).
Proof.
  simpl; destruct (Nat.even j).
  - left; eexists; reflexivity.
  - right; eexists; split; [reflexivity|left; reflexivity].
Qed.

Lemma exhaustion_after_max_retries_witness :
  (forall j, j < 100 -> lookup_fails (get_result Sample.never_ready j)) /\
  qualifies Sample.target_chat Sample.never_ready
    (Sample.group_msg Sample.scenario_body) (js "abc123") /\
  (exists tr,
     run Sample.never_ready 0 (waitForValidFetch (js "abc123") 100)
       = (tr, 100, Failed (exhaustion 100)) /\
     lookups tr = repeat (fetch_url (js "abc123")) 100 /\
     submissions tr = []) /\
  (exists tr,
     run Sample.never_ready 0
       (on_message Sample.target_chat Sample.the_item
          (Sample.group_msg Sample.scenario_body))
       = (tr ++ [Call (console_error
                         [js "ERROR: Enrollment failed:";
                          js "read_url not found after max retries: 100"])],
          100, Fulfilled tt) /\
     lookups tr = repeat (fetch_url (js "abc123")) 100 /\
     submissions tr = []).
Proof.
  assert (H : forall j, j < 100 ->
                lookup_fails (get_result Sample.never_ready j))
    by (intros j _; apply never_ready_fails).
  assert (Hq : qualifies Sample.target_chat Sample.never_ready
                 (Sample.group_msg Sample.scenario_body) (js "abc123")).
  { apply sample_qualifies;
      [reflexivity|vm_compute; reflexivity|vm_compute; reflexivity|discriminate]. }
  split; [exact H|split; [exact Hq|]].
  destruct (exhaustion_after_max_retries Sample.target_chat Sample.the_item
              Sample.never_ready (Sample.group_msg Sample.scenario_body)
              (js "abc123") 100 H) as [Hpoll Hrun].
  split; [exact Hpoll|exact (Hrun eq_refl Hq)].
Defined.

(** C2. When the first [N] lookup responses, [N < maxRetries], have an
    absent or empty [read_url] and the next response has a non-empty one,
    the polling makes exactly [N + 1] lookup requests, waits 30000 ms after
    each of the first [N], and returns the body of response [N + 1]; the
    handler goes on to the dedup check with that descriptor. *)
Theorem ready_after_empty_responses
  (TARGET_CHAT ITEM : jsstring) (w : world) (msg : Msg.t) (id : jsstring)
  (maxRetries N : nat) (d : fetch_data) :
  N < maxRetries ->
  (forall j, j < N ->
     exists res, get_result w j = Resolved res /\ empty_read_url (data res)) ->
  lookup_ready (get_result w N) d ->
  exists tr,
    run w 0 (waitForValidFetch id maxRetries) = (tr, N + 1, Fulfilled d) /\
    lookups tr = repeat (fetch_url id) (N + 1) /\
    schedule tr =
      concat (repeat [Lookup (fetch_url id); Wait 30000%N] N)
        ++ [Lookup (fetch_url id)] /\
    (maxRetries = default_maxRetries ->
     qualifies TARGET_CHAT w msg id ->
     trace_of (run w 0 (on_message TARGET_CHAT ITEM msg)) =
       announcement msg id ++ tr
         ++ closing ITEM w (fullUrl (Msg.body msg)) id (Fulfilled d)).
Proof.
  intros HN Hempty Hready.
  destruct (for_loop_ready w id maxRetries maxRetries N 0 0 d HN)
    as (tr & Hrun & Hl & Hs & Hsch).
  { intros j Hj; right; apply Hempty; exact Hj. }
  { exact Hready. }
  exists (tr ++ [Call (axios_get (fetch_url id))]); split; [exact Hrun|].
  rewrite lookups_app, schedule_app, Hl, Hsch; simpl.
  split; [rewrite repeat_app; reflexivity|split; [reflexivity|]].
  intros -> Hq.
  rewrite (run_qualifying _ _ _ _ _ _ _ _ Hq Hrun); reflexivity.
Qed.

Lemma ready_third_after (d : fetch_data) (post : result unit) :
  (exists c u, read_url d = Some (c :: u)) ->
  ready_after (Sample.ready_third d post) 2 d.
Proof.
  intros Hd; split; [|split; [reflexivity|exact Hd]].
  intros j Hj; right; exists {| data := Sample.pending |}; split.
  - simpl; destruct (Nat.ltb_spec j 2); [reflexivity|lia].
  - left; reflexivity.
Qed.

Lemma ready_after_empty_responses_witness :
  2 < 100 /\
  (forall j, j < 2 ->
     exists res,
       get_result (Sample.ready_third Sample.unlisted (Resolved tt)) j
         = Resolved res /\ empty_read_url (data res)) /\
  lookup_ready
    (get_result (Sample.ready_third Sample.unlisted (Resolved tt)) 2)
    Sample.unlisted /\
  exists tr,
    run (Sample.ready_third Sample.unlisted (Resolved tt)) 0
      (waitForValidFetch (js "abc123") 100)
      = (tr, 3, Fulfilled Sample.unlisted) /\
    lookups tr = repeat (fetch_url (js "abc123")) 3 /\
    schedule tr =
      [Lookup (fetch_url (js "abc123")); Wait 30000%N;
       Lookup (fetch_url (js "abc123")); Wait 30000%N;
       Lookup (fetch_url (js "abc123"))].
Proof.
  assert (H1 : 2 < 100) by lia.
  assert (H2 : forall j, j < 2 ->
     exists res,
       get_result (Sample.ready_third Sample.unlisted (Resolved tt)) j
         = Resolved res /\ empty_read_url (data res)).
  { intros j Hj; exists {| data := Sample.pending |}; split.
    - simpl; destruct (Nat.ltb_spec j 2); [reflexivity|lia].
    - left; reflexivity. }
  assert (H3 : lookup_ready
    (get_result (Sample.ready_third Sample.unlisted (Resolved tt)) 2)
    Sample.unlisted).
  { split; [reflexivity|]. eexists; eexists; vm_compute; reflexivity. }
  split; [exact H1|split; [exact H2|split; [exact H3|]]].
  destruct (ready_after_empty_responses Sample.target_chat Sample.the_item
              (Sample.ready_third Sample.unlisted (Resolved tt))
              (Sample.group_msg Sample.scenario_body) (js "abc123")
              100 2 Sample.unlisted H1 H2 H3) as (tr & Hrun & Hl & Hsch & _).
  exists tr; split; [exact Hrun|split; [exact Hl|exact Hsch]].
Defined.

(** The run on a qualifying message once the polling is ready at round
    [k] with the descriptor [d]. *)
Lemma run_qualifying_ready
  (TARGET_CHAT ITEM : jsstring) (w : world) (msg : Msg.t) (id : jsstring)
  (k : nat) (d : fetch_data) :
  qualifies TARGET_CHAT w msg id ->
  k < default_maxRetries ->
  ready_after w k d ->
  exists tr,
    run w 0 (on_message TARGET_CHAT ITEM msg) =
      (announcement msg id ++ (tr ++ [Call (axios_get (fetch_url id))])
         ++ closing ITEM w (fullUrl (Msg.body msg)) id (Fulfilled d),
       k + 1, Fulfilled tt) /\
    polled id k tr.
Proof.
  intros Hq Hk Hr.
  destruct (run_ready w id k d Hk Hr) as (tr & Hrun & Hp).
  exists tr; split; [|exact Hp].
  apply (run_qualifying _ _ _ _ _ _ _ _ Hq Hrun).
Qed.

(** C3. When the descriptor is ready and none of its items has the
    configured item as description, the run makes exactly one submission:
    a POST to the add action whose body has the configured item as
    [description], [force_creation_of_new_list] false, the extracted
    identifier as [mod_url] and the descriptor's [read_url]. *)
Theorem one_submission_when_absent
  (TARGET_CHAT ITEM : jsstring) (w : world) (msg : Msg.t) (id : jsstring)
  (N : nat) (d : fetch_data) :
  qualifies TARGET_CHAT w msg id ->
  N < default_maxRetries ->
  ready_after w N d ->
  (forall e, In e (items_or_default d) -> description e <> ITEM) ->
  submissions (trace_of (run w 0 (on_message TARGET_CHAT ITEM msg))) =
    [(add_url,
      {| Payload.description := ITEM;
         Payload.force_creation_of_new_list := false;
         Payload.mod_url := id;
         Payload.read_url := read_url d |},
      json_headers)].
Proof.
  intros Hq HN Hr Habsent.
  destruct (run_qualifying_ready TARGET_CHAT ITEM w msg id N d Hq HN Hr)
    as (tr & -> & _ & Hs & _).
  apply alreadyExists_false in Habsent.
  unfold trace_of; cbn [fst closing].
  rewrite Habsent, !submissions_app, Hs.
  destruct (post_result w); reflexivity.
Qed.

Lemma unlisted_absent :
  forall e, In e (items_or_default Sample.unlisted) ->
            description e <> Sample.the_item.
Proof.
  intros e [<- | [<- | []]]; vm_compute; discriminate.
Qed.

Lemma ready_third_qualifies (d : fetch_data) (post : result unit) :
  qualifies Sample.target_chat (Sample.ready_third d post)
    (Sample.group_msg Sample.scenario_body) (js "abc123").
Proof.
  apply sample_qualifies;
    [reflexivity|vm_compute; reflexivity|vm_compute; reflexivity|discriminate].
Qed.

Lemma sample_read_url :
  exists c u, read_url Sample.unlisted = Some (c :: u).
Proof. eexists; eexists; vm_compute; reflexivity. Qed.

Lemma one_submission_when_absent_witness :
  qualifies Sample.target_chat
    (Sample.ready_third Sample.unlisted (Rejected Sample.timeout_error))
    (Sample.group_msg Sample.scenario_body) (js "abc123") /\
  2 < default_maxRetries /\
  ready_after
    (Sample.ready_third Sample.unlisted (Rejected Sample.timeout_error))
    2 Sample.unlisted /\
  (forall e, In e (items_or_default Sample.unlisted) ->
             description e <> Sample.the_item) /\
  submissions
    (trace_of
       (run (Sample.ready_third Sample.unlisted (Rejected Sample.timeout_error))
          0
          (on_message Sample.target_chat Sample.the_item
             (Sample.group_msg Sample.scenario_body)))) =
    [(add_url,
      {| Payload.description := js "Furkan";
         Payload.force_creation_of_new_list := false;
         Payload.mod_url := js "abc123";
         Payload.read_url := Some (js "https://listmoz.com/#r1") |},
      json_headers)].
Proof.
  assert (H1 := ready_third_qualifies Sample.unlisted
                  (Rejected Sample.timeout_error)).
  assert (H2 : 2 < default_maxRetries) by (unfold default_maxRetries; lia).
  assert (H3 := ready_third_after Sample.unlisted
                  (Rejected Sample.timeout_error) sample_read_url).
  split; [exact H1|split; [exact H2|split; [exact H3|]]].
  split; [exact unlisted_absent|].
  exact (one_submission_when_absent Sample.target_chat Sample.the_item
           (Sample.ready_third Sample.unlisted (Rejected Sample.timeout_error))
           (Sample.group_msg Sample.scenario_body) (js "abc123") 2
           Sample.unlisted H1 H2 H3 unlisted_absent).
Defined.

(** C4. When the descriptor is ready and one of its items has the
    configured item as description, the run makes no submission: after the
    last lookup it logs the skip with [console.log] and the handler
    returns normally. *)
Theorem no_submission_when_listed
  (TARGET_CHAT ITEM : jsstring) (w : world) (msg : Msg.t) (id : jsstring)
  (N : nat) (d : fetch_data) :
  qualifies TARGET_CHAT w msg id ->
  N < default_maxRetries ->
  ready_after w N d ->
  (exists e, In e (items_or_default d) /\ description e = ITEM) ->
  exists tr,
    run w 0 (on_message TARGET_CHAT ITEM msg) =
      (tr ++ [Call (axios_get (fetch_url id));
              Call (console_log
                      [js "WARNING: Enrollment skipped, because " ++ ITEM
                         ++ js " already exists"])],
       N + 1, Fulfilled tt) /\
    submissions
      (trace_of (run w 0 (on_message TARGET_CHAT ITEM msg))) = [].
Proof.
  intros Hq HN Hr Hlisted.
  destruct (run_qualifying_ready TARGET_CHAT ITEM w msg id N d Hq HN Hr)
    as (tr & Hrun & _ & Hs & _).
  apply alreadyExists_true in Hlisted.
  rewrite Hrun; cbn [closing]; rewrite Hlisted.
  exists (announcement msg id ++ tr); split.
  - rewrite <- !app_assoc; reflexivity.
  - unfold trace_of; cbn [fst].
    rewrite !submissions_app, Hs; reflexivity.
Qed.

Lemma listed_read_url :
  exists c u, read_url Sample.listed = Some (c :: u).
Proof. eexists; eexists; vm_compute; reflexivity. Qed.

Lemma listed_present :
  exists e, In e (items_or_default Sample.listed) /\
            description e = Sample.the_item.
Proof.
  exists {| description := js "Furkan" |}; split; [right; left|]; reflexivity.
Qed.

Lemma no_submission_when_listed_witness :
  qualifies Sample.target_chat
    (Sample.ready_third Sample.listed (Resolved tt))
    (Sample.group_msg Sample.scenario_body) (js "abc123") /\
  2 < default_maxRetries /\
  ready_after (Sample.ready_third Sample.listed (Resolved tt)) 2
    Sample.listed /\
  (exists e, In e (items_or_default Sample.listed) /\
             description e = Sample.the_item) /\
  outcome_of
    (run (Sample.ready_third Sample.listed (Resolved tt)) 0
       (on_message Sample.target_chat Sample.the_item
          (Sample.group_msg Sample.scenario_body))) = Fulfilled tt /\
  submissions
    (trace_of
       (run (Sample.ready_third Sample.listed (Resolved tt)) 0
          (on_message Sample.target_chat Sample.the_item
             (Sample.group_msg Sample.scenario_body)))) = [].
Proof.
  assert (H1 := ready_third_qualifies Sample.listed (Resolved tt)).
  assert (H2 : 2 < default_maxRetries) by (unfold default_maxRetries; lia).
  assert (H3 := ready_third_after Sample.listed (Resolved tt) listed_read_url).
  split; [exact H1|split; [exact H2|split; [exact H3|]]].
  split; [exact listed_present|].
  destruct (no_submission_when_listed Sample.target_chat Sample.the_item
              (Sample.ready_third Sample.listed (Resolved tt))
              (Sample.group_msg Sample.scenario_body) (js "abc123") 2
              Sample.listed H1 H2 H3 listed_present) as (tr & Hrun & Hs).
  split; [rewrite Hrun; reflexivity|exact Hs].
Defined.

(** C10. When the ready descriptor has no [items] field, the item list is
    taken as empty: the dedup check finds nothing and exactly one
    submission is made; when the submission succeeds the run ends with the
    success line, and in every case the handler returns normally. *)
Theorem absent_items_taken_as_empty
  (TARGET_CHAT ITEM : jsstring) (w : world) (msg : Msg.t) (id : jsstring)
  (N : nat) (d : fetch_data) :
  qualifies TARGET_CHAT w msg id ->
  N < default_maxRetries ->
  ready_after w N d ->
  items d = None ->
  items_or_default d = [] /\
  alreadyExists ITEM d = false /\
  submissions (trace_of (run w 0 (on_message TARGET_CHAT ITEM msg))) =
    [(add_url, payload ITEM id d, json_headers)] /\
  outcome_of (run w 0 (on_message TARGET_CHAT ITEM msg)) = Fulfilled tt /\
  (post_result w = Resolved tt ->
   exists tr,
     trace_of (run w 0 (on_message TARGET_CHAT ITEM msg)) =
       tr ++ [Call (axios_post add_url (payload ITEM id d) json_headers);
              Call (console_log
                      [js "INFO: Enrollment successful for " ++ ITEM
                         ++ js " to " ++ fullUrl (Msg.body msg)])]).
Proof.
  intros Hq HN Hr Hitems.
  assert (Hdef : items_or_default d = [])
    by (unfold items_or_default; rewrite Hitems; reflexivity).
  assert (Hex : alreadyExists ITEM d = false)
    by (unfold alreadyExists; rewrite Hdef; reflexivity).
  destruct (run_qualifying_ready TARGET_CHAT ITEM w msg id N d Hq HN Hr)
    as (tr & -> & _ & Hs & _).
  unfold trace_of, outcome_of; cbn [fst snd closing].
  rewrite Hex.
  repeat split; try assumption.
  - rewrite !submissions_app, Hs.
    destruct (post_result w); reflexivity.
  - intros ->.
    exists (announcement msg id ++ tr ++ [Call (axios_get (fetch_url id))]).
    rewrite <- !app_assoc; reflexivity.
Qed.

Lemma no_items_read_url :
  exists c u, read_url Sample.no_items = Some (c :: u).
Proof. eexists; eexists; vm_compute; reflexivity. Qed.

Lemma absent_items_taken_as_empty_witness :
  qualifies Sample.target_chat
    (Sample.ready_third Sample.no_items (Resolved tt))
    (Sample.group_msg Sample.scenario_body) (js "abc123") /\
  2 < default_maxRetries /\
  ready_after (Sample.ready_third Sample.no_items (Resolved tt)) 2
    Sample.no_items /\
  items Sample.no_items = None /\
  submissions
    (trace_of
       (run (Sample.ready_third Sample.no_items (Resolved tt)) 0
          (on_message Sample.target_chat Sample.the_item
             (Sample.group_msg Sample.scenario_body)))) =
    [(add_url, payload Sample.the_item (js "abc123") Sample.no_items,
      json_headers)] /\
  outcome_of
    (run (Sample.ready_third Sample.no_items (Resolved tt)) 0
       (on_message Sample.target_chat Sample.the_item
          (Sample.group_msg Sample.scenario_body))) = Fulfilled tt.
Proof.
  assert (H1 := ready_third_qualifies Sample.no_items (Resolved tt)).
  assert (H2 : 2 < default_maxRetries) by (unfold default_maxRetries; lia).
  assert (H3 := ready_third_after Sample.no_items (Resolved tt)
                  no_items_read_url).
  assert (H4 : items Sample.no_items = None) by reflexivity.
  split; [exact H1|split; [exact H2|split; [exact H3|split; [exact H4|]]]].
  destruct (absent_items_taken_as_empty Sample.target_chat Sample.the_item
              (Sample.ready_third Sample.no_items (Resolved tt))
              (Sample.group_msg Sample.scenario_body) (js "abc123") 2
              Sample.no_items H1 H2 H3 H4) as (_ & _ & Hs & Ho & _).
  split; [exact Hs|exact Ho].
Defined.

(** C7, as stated, fails: the chat lookup is awaited before the [try]
    statement, so its rejection leaves the handler.  On a group message
    whose chat lookup is rejected, the handler's promise is rejected with
    that error and nothing is logged. *)
Lemma chat_lookup_failure_escapes :
  run Sample.chat_unavailable 0
    (on_message Sample.target_chat Sample.the_item
       (Sample.group_msg Sample.scenario_body))
  = ([Call (getChat (Sample.group_msg Sample.scenario_body))], 0,
     Failed Sample.timeout_error).
Proof. vm_compute; reflexivity. Qed.

(** C7, amended. For every inbound message whose chat lookup, when it is
    made, succeeds, the handler returns normally whatever the lookup
    requests and the submission answer, and each failure is turned into a
    [console.error] line: a rejected lookup request leaves its message, the
    exhaustion of the polling ends the run with its message, and so does a
    rejected submission. *)
Theorem enrollment_failures_are_logged
  (TARGET_CHAT ITEM : jsstring) (w : world) (msg : Msg.t) :
  (contains (Msg.from msg) (js "@g.us") ->
   exists c, chat_result w = Resolved c) ->
  exists tr n,
    run w 0 (on_message TARGET_CHAT ITEM msg) = (tr, n, Fulfilled tt) /\
    (forall j err,
       j < n -> get_result w j = Rejected err ->
       In (Call (console_error [js "ERROR: " ++ message err])) tr) /\
    (lookups tr <> [] ->
     (forall j, j < default_maxRetries -> lookup_fails (get_result w j)) ->
     exists tr',
       tr = tr' ++ [Call (console_error
                            [js "ERROR: Enrollment failed:";
                             message (exhaustion default_maxRetries)])]) /\
    (forall err,
       post_result w = Rejected err ->
       submissions tr <> [] ->
       exists tr',
         tr = tr' ++ [Call (console_error
                              [js "ERROR: Enrollment failed:"; message err])]).
Proof.
  intros Hchat.
  assert (Hquiet : forall tr : list call,
            lookups tr = [] -> submissions tr = [] ->
            exists tr0 n,
              (tr, 0, Fulfilled tt) = (tr0, n, Fulfilled tt) /\
              (forall j err,
                 j < n -> get_result w j = Rejected err ->
                 In (Call (console_error [js "ERROR: " ++ message err])) tr0) /\
              (lookups tr0 <> [] ->
               (forall j, j < default_maxRetries ->
                          lookup_fails (get_result w j)) ->
               exists tr',
                 tr0 = tr' ++ [Call (console_error
                                       [js "ERROR: Enrollment failed:";
                                        message (exhaustion
                                                   default_maxRetries)])]) /\
              (forall err,
                 post_result w = Rejected err ->
                 submissions tr0 <> [] ->
                 exists tr',
                   tr0 = tr' ++ [Call (console_error
                                         [js "ERROR: Enrollment failed:";
                                          message err])])).
  { intros tr Hl Hs; exists tr, 0; split; [reflexivity|].
    split; [intros j err Hj; lia|].
    split; [intros Hne; contradiction|intros err _ Hne; contradiction]. }
  destruct (includes (Msg.from msg) (js "@g.us")) eqn:Hfrom.
  2:{ unfold on_message; rewrite Hfrom; cbn.
      apply (Hquiet []); reflexivity. }
  pose proof Hfrom as Hin.
  apply includes_contains in Hin.
  destruct (Hchat Hin) as (c & Hc).
  destruct (eqb (name c) TARGET_CHAT) eqn:Hname.
  2:{ unfold on_message; rewrite Hfrom; cbn; rewrite Hc; cbn.
      rewrite Hname; cbn. apply Hquiet; reflexivity. }
  destruct (includes (Msg.body msg) prefix) eqn:Hbody.
  2:{ unfold on_message; rewrite Hfrom; cbn; rewrite Hc; cbn.
      rewrite Hname, Hbody; cbn. apply Hquiet; reflexivity. }
  destruct (modUrl (Msg.body msg)) as [[|x id]|] eqn:Hmod.
  1,3: unfold on_message; rewrite Hfrom; cbn; rewrite Hc; cbn;
       rewrite Hname, Hbody, Hmod; cbn; apply Hquiet; reflexivity.
  assert (Hq : qualifies TARGET_CHAT w msg (x :: id)).
  { split; [split; [exact Hin|]|].
    - exists c; split; [exact Hc|apply eqb_eq; exact Hname].
    - split; [apply includes_contains; exact Hbody|].
      split; [exact Hmod|discriminate]. }
  destruct (for_loop_total w (x :: id) default_maxRetries default_maxRetries 0 0)
    as (tr & n & o & Hrun & Hs & Ho & Hlog).
  rewrite (run_qualifying _ _ _ _ _ _ _ _ Hq Hrun).
  do 2 eexists; split; [reflexivity|].
  split; [|split].
  - intros j err Hj Hrej.
    apply in_or_app; right; apply in_or_app; left.
    apply (Hlog j err); [lia|exact Hrej].
  - intros _ Hfail.
    destruct (for_loop_exhausts w (x :: id) default_maxRetries
                default_maxRetries 0 0 Hfail) as (tr2 & Hrun2 & _).
    unfold waitForValidFetch in Hrun; rewrite Hrun in Hrun2.
    injection Hrun2 as _ _ ->; cbn [closing].
    exists (announcement msg (x :: id) ++ tr).
    rewrite <- !app_assoc; reflexivity.
  - intros err Hpost Hne.
    rewrite !submissions_app, Hs in Hne; cbn in Hne.
    destruct Ho as [-> | [d ->]]; cbn [closing] in *.
    + exfalso; apply Hne; reflexivity.
    + destruct (alreadyExists ITEM d).
      * exfalso; apply Hne; reflexivity.
      * rewrite Hpost.
        exists (announcement msg (x :: id) ++ tr
                ++ [Call (axios_post add_url (payload ITEM (x :: id) d)
                            json_headers)]).
        rewrite <- !app_assoc; reflexivity.
Qed.

Lemma enrollment_failures_are_logged_witness :
  (contains (Msg.from (Sample.group_msg Sample.scenario_body)) (js "@g.us") ->
   exists c,
     chat_result
       (Sample.ready_third Sample.unlisted (Rejected Sample.timeout_error))
     = Resolved c) /\
  exists tr n,
    run (Sample.ready_third Sample.unlisted (Rejected Sample.timeout_error)) 0
      (on_message Sample.target_chat Sample.the_item
         (Sample.group_msg Sample.scenario_body))
    = (tr, n, Fulfilled tt).
Proof.
  assert (H : contains (Msg.from (Sample.group_msg Sample.scenario_body))
                (js "@g.us") ->
              exists c,
                chat_result
                  (Sample.ready_third Sample.unlisted
                     (Rejected Sample.timeout_error))
                = Resolved c)
    by (intros _; eexists; reflexivity).
  split; [exact H|].
  destruct (enrollment_failures_are_logged Sample.target_chat Sample.the_item
              (Sample.ready_third Sample.unlisted
                 (Rejected Sample.timeout_error))
              (Sample.group_msg Sample.scenario_body) H)
    as (tr & n & Hrun & _).
  exists tr, n; exact Hrun.
Defined.

(** ** Further properties: the polling for every world *)

Section Polling.

Variable w : world.

Lemma lookup_fails_or_ready (r : result response) :
  lookup_fails r \/ exists d, lookup_ready r d.
Proof.
  destruct r as [[d]|err]; [|left; left; exists err; reflexivity].
  destruct (read_url d) as [[|c u]|] eqn:E.
  - left; right; eexists; split; [reflexivity|right; exact E].
  - right; exists d; split; [reflexivity|exists c, u; exact E].
  - left; right; eexists; split; [reflexivity|left; exact E].
Qed.

Lemma lookup_not_both (r : result response) (d : fetch_data) :
  lookup_fails r -> lookup_ready r d -> False.
Proof.
  intros [[err ->] | (res & -> & He)] [E (c & u & Hd)]; [discriminate|].
  injection E as ->; simpl in He.
  destruct He as [He | He]; rewrite He in Hd; discriminate.
Qed.

(** Either the first [m] lookups all fail, or one of them is the first to
    be ready. *)
Lemma first_ready (m : nat) :
  (forall j, j < m -> lookup_fails (get_result w j)) \/
  exists N d, N < m /\ ready_after w N d.
Proof.
  induction m as [|m [IH | (N & d & HN & Hr)]].
  - left; intros j Hj; lia.
  - destruct (lookup_fails_or_ready (get_result w m)) as [Hf | (d & Hd)].
    + left; intros j Hj.
      destruct (Nat.eq_dec j m) as [->|]; [exact Hf|apply IH; lia].
    + right; exists m, d; split; [lia|split; assumption].
  - right; exists N, d; split; [lia|exact Hr].
Qed.

(** The two ways the polling ends. *)
Lemma polling_cases (id : jsstring) (maxRetries : nat) :
  (exists tr,
     run w 0 (waitForValidFetch id maxRetries)
       = (tr, maxRetries, Failed (exhaustion maxRetries)) /\
     polled id maxRetries tr /\
     forall j, j < maxRetries -> lookup_fails (get_result w j)) \/
  (exists N d tr,
     N < maxRetries /\ ready_after w N d /\
     run w 0 (waitForValidFetch id maxRetries)
       = (tr ++ [Call (axios_get (fetch_url id))], N + 1, Fulfilled d) /\
     polled id N tr).
Proof.
  destruct (first_ready maxRetries) as [Hf | (N & d & HN & Hr)].
  - left.
    destruct (for_loop_exhausts w id maxRetries maxRetries 0 0 Hf)
      as (tr & Hrun & Hp).
    exists tr; auto.
  - right; pose proof Hr as [Hf Hd].
    destruct (for_loop_ready w id maxRetries maxRetries N 0 0 d HN Hf Hd)
      as (tr & Hrun & Hp).
    exists N, d, tr; auto.
Qed.

End Polling.

Section PollingProperties.

Variable w : world.
Variable id : jsstring.

Lemma console_app (a b : list call) : console (a ++ b) = console a ++ console b.
Proof.
  induction a as [|[X e] a IH]; simpl; [reflexivity|].
  destruct e; simpl; rewrite IH; reflexivity.
Qed.

Lemma polled_lookups_ready (k : nat) (tr : list call) :
  polled id k tr ->
  lookups (tr ++ [Call (axios_get (fetch_url id))])
    = repeat (fetch_url id) (k + 1) /\
  submissions (tr ++ [Call (axios_get (fetch_url id))]) = [].
Proof.
  intros (Hl & Hs & _).
  rewrite lookups_app, submissions_app, Hl, Hs, repeat_app; split; reflexivity.
Qed.

Lemma total_wait_rounds (u : jsstring) (k : nat) (sch : list step) :
  total_wait (concat (repeat [Lookup u; Wait 30000%N] k) ++ sch)
  = (30000 * N.of_nat k + total_wait sch)%N.
Proof.
  induction k as [|k IH]; [reflexivity|].
  cbn [repeat concat app total_wait].
  rewrite IH; lia.
Qed.

(** A failing round at counter [i] writes the retry line of its answer. *)
Lemma run_attempt_line (n i : nat) :
  lookup_fails (get_result w n) ->
  exists l,
    run w n (attempt id i)
      = ([Call (axios_get (fetch_url id)); l], S n, Fulfilled None) /\
    console [l] = [retry_line (get_result w n) i].
Proof.
  intros H; rewrite run_attempt.
  destruct H as [[err ->] | (res & -> & He)].
  - eexists; split; reflexivity.
  - rewrite (truthy_empty _ He); eexists; split; reflexivity.
Qed.

Lemma for_loop_console (maxRetries k remaining n i : nat) :
  k <= remaining ->
  (forall j, j < k -> lookup_fails (get_result w (n + j))) ->
  k = remaining \/ (exists d, lookup_ready (get_result w (n + k)) d) ->
  console (trace_of (run w n (for_loop id maxRetries remaining i)))
  = map (fun j => retry_line (get_result w (n + j)) (i + j)) (seq 0 k).
Proof.
  revert remaining n i; induction k as [|k IH]; intros remaining n i Hk Hf Hend.
  - destruct remaining as [|r]; [reflexivity|].
    destruct Hend as [|[d Hd]]; [discriminate|].
    rewrite Nat.add_0_r in Hd.
    rewrite for_loop_S, run_bind, (run_attempt_ready _ _ _ _ _ Hd).
    reflexivity.
  - destruct remaining as [|r]; [lia|].
    destruct (run_attempt_line n i) as (l & Hrun & Hl).
    { rewrite <- (Nat.add_0_r n); apply Hf; lia. }
    specialize (IH r (S n) (S i)).
    rewrite for_loop_S, run_bind, Hrun; simpl.
    destruct (run w (S n) (for_loop id maxRetries r (S i)))
      as [[tr2 n2] o2] eqn:E.
    unfold trace_of in *; cbn [fst] in *.
    change (Call (axios_get (fetch_url id)) :: l :: Call (delay 30000) :: tr2)
      with ([Call (axios_get (fetch_url id))] ++ [l]
              ++ [Call (delay 30000)] ++ tr2).
    rewrite !console_app, Hl; cbn [console app].
    rewrite IH.
    + rewrite !Nat.add_0_r; f_equal.
      rewrite <- seq_shift, map_map.
      apply map_ext; intros j.
      replace (S n + j) with (n + S j) by lia.
      replace (S i + j) with (i + S j) by lia; reflexivity.
    + lia.
    + intros j Hj; replace (S n + j) with (n + S j) by lia; apply Hf; lia.
    + destruct Hend as [He | [d Hd]]; [left; lia|right; exists d].
      replace (S n + k) with (n + S k) by lia; exact Hd.
Qed.

(** X10. The polling never makes more than [maxRetries] lookup requests, all to
    the same URL, and never submits. *)
Theorem polling_within_bound (maxRetries : nat) :
  exists tr n o,
    run w 0 (waitForValidFetch id maxRetries) = (tr, n, o) /\
    n <= maxRetries /\
    lookups tr = repeat (fetch_url id) n /\
    submissions tr = [].
Proof.
  destruct (polling_cases w id maxRetries)
    as [(tr & Hrun & (Hl & Hs & _) & _) | (N & d & tr & HN & _ & Hrun & Hp)].
  - do 3 eexists; split; [exact Hrun|auto].
  - destruct (polled_lookups_ready _ _ Hp) as [Hl Hs].
    do 3 eexists; split; [exact Hrun|].
    split; [lia|split; assumption].
Qed.

(** X11. What the polling returns is always the body of the first response with
    a non-empty [read_url], after lookups that all failed. *)
Theorem polling_returns_only_ready (maxRetries : nat) (d : fetch_data) :
  outcome_of (run w 0 (waitForValidFetch id maxRetries)) = Fulfilled d ->
  exists N,
    N < maxRetries /\ ready_after w N d /\
    lookups (trace_of (run w 0 (waitForValidFetch id maxRetries)))
      = repeat (fetch_url id) (N + 1).
Proof.
  destruct (polling_cases w id maxRetries)
    as [(tr & Hrun & _) | (N & d' & tr & HN & Hr & Hrun & Hp)];
    rewrite Hrun; unfold outcome_of, trace_of; cbn [fst snd].
  - discriminate.
  - intros [= <-]; exists N.
    split; [exact HN|split; [exact Hr|apply (polled_lookups_ready _ _ Hp)]].
Qed.

(** X12. The polling throws nothing but the exhaustion error, and only when all
    of the first [maxRetries] lookups failed: the error of a rejected lookup
    is never passed on. *)
Theorem polling_fails_only_by_exhaustion (maxRetries : nat) (err : error) :
  outcome_of (run w 0 (waitForValidFetch id maxRetries)) = Failed err ->
  err = exhaustion maxRetries /\
  (forall j, j < maxRetries -> lookup_fails (get_result w j)) /\
  lookups (trace_of (run w 0 (waitForValidFetch id maxRetries)))
    = repeat (fetch_url id) maxRetries.
Proof.
  destruct (polling_cases w id maxRetries)
    as [(tr & Hrun & (Hl & _) & Hf) | (N & d' & tr & HN & Hr & Hrun & Hp)];
    rewrite Hrun; unfold outcome_of, trace_of; cbn [fst snd].
  - intros [= <-]; auto.
  - discriminate.
Qed.

(** X13. On exhaustion the polling has waited 30000 ms after every attempt, the
    last one included. *)
Theorem exhaustion_waits_after_every_attempt (maxRetries : nat) :
  (forall j, j < maxRetries -> lookup_fails (get_result w j)) ->
  schedule (trace_of (run w 0 (waitForValidFetch id maxRetries)))
    = concat (repeat [Lookup (fetch_url id); Wait 30000%N] maxRetries) /\
  total_wait (schedule (trace_of (run w 0 (waitForValidFetch id maxRetries))))
    = (30000 * N.of_nat maxRetries)%N.
Proof.
  intros Hf.
  destruct (for_loop_exhausts w id maxRetries maxRetries 0 0 Hf)
    as (tr & Hrun & _ & _ & Hsch).
  unfold waitForValidFetch; rewrite Hrun; unfold trace_of; cbn [fst].
  rewrite Hsch; split; [reflexivity|].
  rewrite <- (app_nil_r (concat _)), total_wait_rounds; simpl; lia.
Qed.

(** X14. The failing rounds write one console line each, in order: the error
    message of a rejected lookup, or the warning numbered from 1 for a
    response without [read_url]; the ready round writes nothing. *)
Theorem retry_lines_in_order (maxRetries k : nat) :
  k <= maxRetries ->
  (forall j, j < k -> lookup_fails (get_result w j)) ->
  k = maxRetries \/ (exists d, lookup_ready (get_result w k) d) ->
  console (trace_of (run w 0 (waitForValidFetch id maxRetries)))
  = map (fun j => retry_line (get_result w j) j) (seq 0 k).
Proof.
  intros Hk Hf Hend.
  apply (for_loop_console maxRetries k maxRetries 0 0 Hk Hf Hend).
Qed.

End PollingProperties.

(** ** Further properties: the handler for every world *)

Section HandlerCases.

Variables TARGET_CHAT ITEM : jsstring.
Variable w : world.
Variable msg : Msg.t.

(** The ways a run of the handler goes: the message is not from a group;
    the chat lookup is rejected; the message is filtered out after the chat
    lookup; the polling is exhausted; the polling is ready. *)
Lemma run_cases :
  (~ contains (Msg.from msg) (js "@g.us") /\
   run w 0 (on_message TARGET_CHAT ITEM msg) = ([], 0, Fulfilled tt)) \/
  (exists err,
     contains (Msg.from msg) (js "@g.us") /\
     chat_result w = Rejected err /\
     run w 0 (on_message TARGET_CHAT ITEM msg)
       = ([Call (getChat msg)], 0, Failed err)) \/
  (contains (Msg.from msg) (js "@g.us") /\
   (exists c, chat_result w = Resolved c) /\
   (forall id, ~ qualifies TARGET_CHAT w msg id) /\
   run w 0 (on_message TARGET_CHAT ITEM msg)
     = ([Call (getChat msg)], 0, Fulfilled tt)) \/
  (exists id tr,
     qualifies TARGET_CHAT w msg id /\
     (forall j, j < default_maxRetries -> lookup_fails (get_result w j)) /\
     polled id default_maxRetries tr /\
     console tr
       = map (fun j => retry_line (get_result w j) j)
           (seq 0 default_maxRetries) /\
     run w 0 (on_message TARGET_CHAT ITEM msg)
       = (announcement msg id ++ tr
            ++ closing ITEM w (fullUrl (Msg.body msg)) id
                 (Failed (exhaustion default_maxRetries)),
          default_maxRetries, Fulfilled tt)) \/
  (exists id N d tr,
     qualifies TARGET_CHAT w msg id /\
     N < default_maxRetries /\ ready_after w N d /\
     polled id N tr /\
     console tr = map (fun j => retry_line (get_result w j) j) (seq 0 N) /\
     run w 0 (on_message TARGET_CHAT ITEM msg)
       = (announcement msg id ++ (tr ++ [Call (axios_get (fetch_url id))])
            ++ closing ITEM w (fullUrl (Msg.body msg)) id (Fulfilled d),
          N + 1, Fulfilled tt)).
Proof.
  destruct (includes (Msg.from msg) (js "@g.us")) eqn:Hfrom.
  2:{ left; split.
      - intros Hc; apply includes_contains in Hc; congruence.
      - unfold on_message; rewrite Hfrom; reflexivity. }
  right.
  pose proof Hfrom as Hin; apply includes_contains in Hin.
  destruct (chat_result w) as [c|err] eqn:Hc.
  2:{ left; exists err; repeat split; auto.
      unfold on_message; rewrite Hfrom; cbn; rewrite Hc; reflexivity. }
  right.
  assert (Hfiltered :
            (forall id, ~ qualifies TARGET_CHAT w msg id) ->
            run w 0 (on_message TARGET_CHAT ITEM msg)
              = ([Call (getChat msg)], 0, Fulfilled tt) ->
            contains (Msg.from msg) (js "@g.us") /\
            (exists c0, Resolved c = Resolved c0) /\
            (forall id, ~ qualifies TARGET_CHAT w msg id) /\
            run w 0 (on_message TARGET_CHAT ITEM msg)
              = ([Call (getChat msg)], 0, Fulfilled tt)).
  { intros Hn Hr; repeat split; auto; exists c; reflexivity. }
  destruct (eqb (name c) TARGET_CHAT) eqn:Hname.
  2:{ left; apply Hfiltered.
      - intros id ((_ & c' & Hc' & Hn') & _).
        rewrite Hc in Hc'; injection Hc' as <-.
        apply eqb_eq in Hn'; congruence.
      - unfold on_message; rewrite Hfrom; cbn; rewrite Hc; cbn.
        rewrite Hname; reflexivity. }
  destruct (includes (Msg.body msg) prefix) eqn:Hbody.
  2:{ left; apply Hfiltered.
      - intros id (_ & Hb & _).
        apply includes_contains in Hb; congruence.
      - unfold on_message; rewrite Hfrom; cbn; rewrite Hc; cbn.
        rewrite Hname, Hbody; reflexivity. }
  destruct (modUrl (Msg.body msg)) as [[|x id]|] eqn:Hmod.
  1,3: left; apply Hfiltered;
       [intros id (_ & _ & Hm & Hne); congruence
       |unfold on_message; rewrite Hfrom; cbn; rewrite Hc; cbn;
        rewrite Hname, Hbody, Hmod; reflexivity].
  right.
  assert (Hq : qualifies TARGET_CHAT w msg (x :: id)).
  { split; [split; [exact Hin|]|].
    - exists c; split; [exact Hc|apply eqb_eq; exact Hname].
    - split; [apply includes_contains; exact Hbody|].
      split; [exact Hmod|discriminate]. }
  destruct (polling_cases w (x :: id) default_maxRetries)
    as [(tr & Hrun & Hp & Hf) | (N & d & tr & HN & Hr & Hrun & Hp)].
  - left; exists (x :: id), tr.
    split; [exact Hq|split; [exact Hf|split; [exact Hp|split]]].
    + pose proof (for_loop_console w (x :: id) default_maxRetries
                    default_maxRetries default_maxRetries 0 0
                    (Nat.le_refl _) Hf (or_introl eq_refl)
                  : console (trace_of (run w 0 (waitForValidFetch (x :: id)
                                                  default_maxRetries)))
                    = map (fun j => retry_line (get_result w j) j)
                        (seq 0 default_maxRetries))
        as Hcon.
      rewrite Hrun in Hcon; exact Hcon.
    + apply (run_qualifying _ _ _ _ _ _ _ _ Hq Hrun).
  - right; exists (x :: id), N, d, tr.
    split; [exact Hq|split; [exact HN|split; [exact Hr|split; [exact Hp|]]]].
    split.
    + destruct Hr as [Hf Hd].
      pose proof (for_loop_console w (x :: id) default_maxRetries N
                    default_maxRetries 0 0
                    (Nat.lt_le_incl _ _ HN) Hf
                    (or_intror (ex_intro _ d Hd))
                  : console (trace_of (run w 0 (waitForValidFetch (x :: id)
                                                  default_maxRetries)))
                    = map (fun j => retry_line (get_result w j) j) (seq 0 N))
        as Hcon.
      rewrite Hrun in Hcon; unfold trace_of in Hcon; cbn [fst] in Hcon.
      rewrite console_app in Hcon; cbn [console] in Hcon.
      rewrite app_nil_r in Hcon; exact Hcon.
    + apply (run_qualifying _ _ _ _ _ _ _ _ Hq Hrun).
Qed.

End HandlerCases.

Section HandlerProperties.

Variables TARGET_CHAT ITEM : jsstring.
Variable w : world.
Variable msg : Msg.t.

Lemma closing_submissions (full id : jsstring) (o : outcome fetch_data) :
  submissions (closing ITEM w full id o) =
  match o with
  | Fulfilled d =>
      if alreadyExists ITEM d then []
      else [(add_url, payload ITEM id d, json_headers)]
  | Failed _ => []
  end.
Proof.
  destruct o as [d|err]; cbn [closing]; [|reflexivity].
  destruct (alreadyExists ITEM d); [reflexivity|].
  destruct (post_result w); reflexivity.
Qed.

Lemma closing_schedule (full id : jsstring) (o : outcome fetch_data) :
  schedule (closing ITEM w full id o) =
  match o with
  | Fulfilled d => if alreadyExists ITEM d then [] else [Submit add_url]
  | Failed _ => []
  end.
Proof.
  destruct o as [d|err]; cbn [closing]; [|reflexivity].
  destruct (alreadyExists ITEM d); [reflexivity|].
  destruct (post_result w); reflexivity.
Qed.

Lemma closing_lookups (full id : jsstring) (o : outcome fetch_data) :
  lookups (closing ITEM w full id o) = [].
Proof.
  destruct o as [d|err]; cbn [closing]; [|reflexivity].
  destruct (alreadyExists ITEM d); [reflexivity|].
  destruct (post_result w); reflexivity.
Qed.

Lemma announcement_silent (id : jsstring) :
  lookups (announcement msg id) = [] /\
  submissions (announcement msg id) = [] /\
  schedule (announcement msg id) = [].
Proof. repeat split. Qed.

(** X1. A group message from another chat than the target ends the handler
    after the chat lookup, whatever its body. *)
Theorem other_chat_ignored (c : chat) :
  contains (Msg.from msg) (js "@g.us") ->
  chat_result w = Resolved c ->
  name c <> TARGET_CHAT ->
  run w 0 (on_message TARGET_CHAT ITEM msg)
  = ([Call (getChat msg)], 0, Fulfilled tt).
Proof.
  intros Hfrom Hc Hname.
  apply includes_contains in Hfrom.
  unfold on_message; rewrite Hfrom; cbn; rewrite Hc; cbn.
  destruct (eqb (name c) TARGET_CHAT) eqn:E; [|reflexivity].
  apply eqb_eq in E; contradiction.
Qed.

(** X2. The handler's promise is rejected in one case only: the message comes
    from a group and the chat lookup is rejected; the error is that of the
    chat lookup. *)
Theorem handler_rejects_iff (err : error) :
  outcome_of (run w 0 (on_message TARGET_CHAT ITEM msg)) = Failed err <->
  contains (Msg.from msg) (js "@g.us") /\ chat_result w = Rejected err.
Proof.
  destruct (run_cases TARGET_CHAT ITEM w msg)
    as [(Hn & Hrun) | [(e & Hin & Hc & Hrun) | [(Hin & (c & Hc) & _ & Hrun)
       | [(id & tr & Hq & _ & _ & _ & Hrun)
         | (id & N & d & tr & Hq & _ & _ & _ & _ & Hrun)]]]];
    rewrite Hrun; unfold outcome_of; cbn [snd]; split; try discriminate.
  - intros [Hin _]; contradiction.
  - intros [= ->]; auto.
  - intros [_ Hc']; rewrite Hc in Hc'; injection Hc' as ->; reflexivity.
  - intros [_ Hc']; congruence.
  - intros [_ Hc']; destruct Hq as ((_ & c & Hc & _) & _); congruence.
  - intros [_ Hc']; destruct Hq as ((_ & c & Hc & _) & _); congruence.
Qed.

(** X3. The handler makes a lookup request exactly when the message
    qualifies: it comes from a group, its chat is the target chat, and its
    body carries a link with a non-empty identifier. *)
Theorem lookup_iff_qualifies :
  lookups (trace_of (run w 0 (on_message TARGET_CHAT ITEM msg))) <> [] <->
  exists id, qualifies TARGET_CHAT w msg id.
Proof.
  destruct (run_cases TARGET_CHAT ITEM w msg)
    as [(Hn & Hrun) | [(e & Hin & Hc & Hrun) | [(Hin & _ & Hnq & Hrun)
       | [(id & tr & Hq & _ & (Hl & _) & _ & Hrun)
         | (id & N & d & tr & Hq & _ & _ & Hp & _ & Hrun)]]]];
    rewrite Hrun; unfold trace_of; cbn [fst]; split.
  - intros H; exfalso; apply H; reflexivity.
  - intros (id & (Hin & _) & _); contradiction.
  - intros H; exfalso; apply H; reflexivity.
  - intros (id & (_ & c & Hc' & _) & _); congruence.
  - intros H; exfalso; apply H; reflexivity.
  - intros (id & Hq); exfalso; exact (Hnq id Hq).
  - intros _; exists id; exact Hq.
  - intros _; rewrite !lookups_app, Hl; cbn.
    unfold default_maxRetries; discriminate.
  - intros _; exists id; exact Hq.
  - intros _; rewrite !lookups_app; cbn.
    destruct (lookups tr); discriminate.
Qed.

(** X4. Whatever the surroundings answer, a run makes at most
    [default_maxRetries] lookup requests, all of them to the lookup URL of
    the identifier extracted from the body. *)
Theorem lookups_bounded :
  length (lookups (trace_of (run w 0 (on_message TARGET_CHAT ITEM msg))))
    <= default_maxRetries /\
  Forall (fun u => exists id,
                     modUrl (Msg.body msg) = Some id /\ u = fetch_url id)
    (lookups (trace_of (run w 0 (on_message TARGET_CHAT ITEM msg)))).
Proof.
  destruct (run_cases TARGET_CHAT ITEM w msg)
    as [(Hn & Hrun) | [(e & Hin & Hc & Hrun) | [(Hin & _ & Hnq & Hrun)
       | [(id & tr & Hq & _ & (Hl & _) & _ & Hrun)
         | (id & N & d & tr & Hq & HN & _ & Hp & _ & Hrun)]]]];
    rewrite Hrun; unfold trace_of; cbn [fst].
  1-3: split; [cbn; lia|constructor].
  - rewrite !lookups_app, closing_lookups, Hl, app_nil_r.
    rewrite (proj1 (announcement_silent id)); cbn [app].
    split; [rewrite repeat_length; lia|].
    apply Forall_forall; intros u Hu; apply repeat_spec in Hu; subst u.
    exists id; split; [apply Hq|reflexivity].
  - destruct (polled_lookups_ready id N tr Hp) as [Hl _].
    rewrite lookups_app, (proj1 (announcement_silent id)); cbn [app].
    rewrite lookups_app, closing_lookups, app_nil_r, Hl.
    split; [rewrite repeat_length; lia|].
    apply Forall_forall; intros u Hu; apply repeat_spec in Hu; subst u.
    exists id; split; [apply Hq|reflexivity].
Qed.


(** X6. The handler submits exactly when the message qualifies, the polling
    becomes ready within the bound, and no item of the descriptor has the
    configured item as description. *)
Theorem submission_iff :
  submissions (trace_of (run w 0 (on_message TARGET_CHAT ITEM msg))) <> [] <->
  exists id N d,
    qualifies TARGET_CHAT w msg id /\
    N < default_maxRetries /\ ready_after w N d /\
    forall e, In e (items_or_default d) -> description e <> ITEM.
Proof.
  split.
  - destruct (run_cases TARGET_CHAT ITEM w msg)
      as [(Hn & Hrun) | [(e & Hin & Hc & Hrun) | [(Hin & _ & Hnq & Hrun)
         | [(id & tr & Hq & _ & (_ & Hs & _) & _ & Hrun)
           | (id & N & d & tr & Hq & HN & Hr & Hp & _ & Hrun)]]]];
      rewrite Hrun; unfold trace_of; cbn [fst].
    1-3: intros H; exfalso; apply H; reflexivity.
    + rewrite !submissions_app, closing_submissions, Hs.
      rewrite (proj1 (proj2 (announcement_silent id))).
      intros H; exfalso; apply H; reflexivity.
    + destruct (polled_lookups_ready id N tr Hp) as [_ Hs].
      rewrite submissions_app, (proj1 (proj2 (announcement_silent id))).
      rewrite submissions_app, closing_submissions, Hs; cbn [app].
      destruct (alreadyExists ITEM d) eqn:Hex.
      * intros H; exfalso; apply H; reflexivity.
      * intros _; exists id, N, d.
        split; [exact Hq|split; [exact HN|split; [exact Hr|]]].
        apply alreadyExists_false; exact Hex.
  - intros (id & N & d & Hq & HN & Hr & Habs).
    destruct (run_qualifying_ready TARGET_CHAT ITEM w msg id N d Hq HN Hr)
      as (tr & Hrun & _).
    rewrite Hrun; unfold trace_of; cbn [fst].
    apply alreadyExists_false in Habs.
    rewrite !submissions_app, closing_submissions, Habs.
    intros H; apply app_eq_nil in H as [_ H].
    apply app_eq_nil in H as [_ H]; discriminate.
Qed.

(** X7. The network requests and waits of any run: some rounds of lookup and
    30000 ms wait, then nothing more (no round at all, or the bound is
    reached), or the ready lookup alone, or the ready lookup followed at
    once by the one submission.  Nothing follows the submission. *)
Theorem schedule_shape :
  exists u k,
    k <= default_maxRetries /\
    ((schedule (trace_of (run w 0 (on_message TARGET_CHAT ITEM msg)))
        = concat (repeat [Lookup u; Wait 30000%N] k) /\
      (k = 0 \/ k = default_maxRetries)) \/
     (k < default_maxRetries /\
      schedule (trace_of (run w 0 (on_message TARGET_CHAT ITEM msg)))
        = concat (repeat [Lookup u; Wait 30000%N] k) ++ [Lookup u]) \/
     (k < default_maxRetries /\
      schedule (trace_of (run w 0 (on_message TARGET_CHAT ITEM msg)))
        = concat (repeat [Lookup u; Wait 30000%N] k)
            ++ [Lookup u; Submit add_url])).
Proof.
  destruct (run_cases TARGET_CHAT ITEM w msg)
    as [(Hn & Hrun) | [(e & Hin & Hc & Hrun) | [(Hin & _ & Hnq & Hrun)
       | [(id & tr & Hq & _ & (_ & _ & Hsch) & _ & Hrun)
         | (id & N & d & tr & Hq & HN & Hr & (_ & _ & Hsch) & _ & Hrun)]]]];
    rewrite Hrun; unfold trace_of; cbn [fst].
  1-3: exists [], 0; split; [lia|left; split; [reflexivity|left; reflexivity]].
  - exists (fetch_url id), default_maxRetries; split; [lia|left].
    rewrite !schedule_app, closing_schedule, Hsch, app_nil_r.
    rewrite (proj2 (proj2 (announcement_silent id))).
    split; [reflexivity|right; reflexivity].
  - exists (fetch_url id), N; split; [lia|right].
    rewrite !schedule_app, closing_schedule, Hsch.
    rewrite (proj2 (proj2 (announcement_silent id))); cbn [app schedule].
    destruct (alreadyExists ITEM d).
    + left; split; [exact HN|rewrite app_nil_r; reflexivity].
    + right; split; [exact HN|rewrite <- app_assoc; reflexivity].
Qed.

End HandlerProperties.

Section HandlerConsole.

Variables TARGET_CHAT ITEM : jsstring.
Variable w : world.
Variable msg : Msg.t.

(** No other line of the handler is the success line. *)
Lemma success_line_fresh (full id : jsstring) (r : result response) (j : nat) :
  Logged (success_line ITEM full)
    <> Logged [js "INFO: A new listmoz link has been dropped!"] /\
  Logged (success_line ITEM full) <> Logged [js "INFO: Mod URL: " ++ id] /\
  Logged (success_line ITEM full) <> retry_line r j /\
  Logged (success_line ITEM full)
    <> Logged [js "WARNING: Enrollment skipped, because " ++ ITEM
                 ++ js " already exists"].
Proof.
  unfold success_line; repeat split; intros E.
  - apply (f_equal (fun l => match l with
                             | Logged [s] => nth 6 s 0%N
                             | _ => 0%N
                             end)) in E.
    vm_compute in E; discriminate.
  - apply (f_equal (fun l => match l with
                             | Logged [s] => nth 6 s 0%N
                             | _ => 0%N
                             end)) in E.
    vm_compute in E; discriminate.
  - destruct r; [|discriminate].
    apply (f_equal (fun l => match l with
                             | Logged [s] => nth 0 s 0%N
                             | _ => 0%N
                             end)) in E.
    vm_compute in E; discriminate.
  - apply (f_equal (fun l => match l with
                             | Logged [s] => nth 0 s 0%N
                             | _ => 0%N
                             end)) in E.
    vm_compute in E; discriminate.
Qed.

Lemma console_closing (full id : jsstring) (o : outcome fetch_data) :
  console (closing ITEM w full id o) =
  match o with
  | Failed err => [Errored [js "ERROR: Enrollment failed:"; message err]]
  | Fulfilled d =>
      if alreadyExists ITEM d then
        [Logged [js "WARNING: Enrollment skipped, because " ++ ITEM
                   ++ js " already exists"]]
      else
        match post_result w with
        | Resolved _ => [Logged (success_line ITEM full)]
        | Rejected err =>
            [Errored [js "ERROR: Enrollment failed:"; message err]]
        end
  end.
Proof.
  destruct o as [d|err]; cbn [closing]; [|reflexivity].
  destruct (alreadyExists ITEM d); [reflexivity|].
  destruct (post_result w); reflexivity.
Qed.

Lemma console_announcement (id : jsstring) :
  console (announcement msg id) =
  [Logged [js "INFO: A new listmoz link has been dropped!"];
   Logged [js "INFO: Mod URL: " ++ id]].
Proof. reflexivity. Qed.

Lemma success_not_retry (full : jsstring) (k : nat) :
  ~ In (Logged (success_line ITEM full))
       (map (fun j => retry_line (get_result w j) j) (seq 0 k)).
Proof.
  intros H; apply in_map_iff in H as (j & E & _).
  destruct (success_line_fresh full [] (get_result w j) j) as (_ & _ & H & _).
  apply H; symmetry; exact E.
Qed.

(** X8. The success line is written exactly when a submission was made and
    answered successfully: never without a submission, never after a
    rejected one. *)
Theorem success_logged_iff :
  In (Logged (success_line ITEM (fullUrl (Msg.body msg))))
     (console (trace_of (run w 0 (on_message TARGET_CHAT ITEM msg)))) <->
  submissions (trace_of (run w 0 (on_message TARGET_CHAT ITEM msg))) <> [] /\
  post_result w = Resolved tt.
Proof.
  destruct (run_cases TARGET_CHAT ITEM w msg)
    as [(Hn & Hrun) | [(e & Hin & Hc & Hrun) | [(Hin & _ & Hnq & Hrun)
       | [(id & tr & Hq & _ & (_ & Hs & _) & Hcon & Hrun)
         | (id & N & d & tr & Hq & HN & Hr & Hp & Hcon & Hrun)]]]];
    rewrite Hrun; unfold trace_of; cbn [fst].
  1-3: split; [intros []|intros [H _]; exfalso; apply H; reflexivity].
  - rewrite !console_app, !submissions_app, console_closing,
      closing_submissions, console_announcement, Hcon, Hs.
    split; [|intros [H _]; exfalso; apply H; reflexivity].
    destruct (success_line_fresh (fullUrl (Msg.body msg)) id
                (get_result w 0) 0) as (F1 & F2 & _ & _).
    intros [E | [E | H]]; [congruence|congruence|].
    cbn [app] in H.
    apply in_app_or in H as [H | [E | []]];
      [exfalso; exact (success_not_retry _ _ H)|discriminate].
  - destruct (polled_lookups_ready id N tr Hp) as [_ Hs].
    rewrite submissions_app, submissions_app, Hs, closing_submissions.
    rewrite !console_app, console_closing, console_announcement, Hcon.
    cbn [console app].
    destruct (success_line_fresh (fullUrl (Msg.body msg)) id
                (get_result w 0) 0) as (F1 & F2 & _ & F4).
    assert (Hpre : forall rest,
              In (Logged (success_line ITEM (fullUrl (Msg.body msg))))
                 (Logged [js "INFO: A new listmoz link has been dropped!"]
                  :: Logged [js "INFO: Mod URL: " ++ id]
                  :: (map (fun j => retry_line (get_result w j) j) (seq 0 N)
                      ++ []) ++ rest) ->
              In (Logged (success_line ITEM (fullUrl (Msg.body msg)))) rest).
    { intros rest [E | [E | H]]; [congruence|congruence|].
      rewrite app_nil_r in H.
      apply in_app_or in H as [H | H]; [|exact H].
      exfalso; exact (success_not_retry _ _ H). }
    destruct (alreadyExists ITEM d).
    + split; [|intros [H _]; exfalso; apply H; reflexivity].
      intros H; apply Hpre in H as [E | []]; congruence.
    + destruct (post_result w) as [[]|err].
      * split; [intros _; split; [discriminate|reflexivity]|].
        intros _; do 2 right.
        apply in_or_app; right; left; reflexivity.
      * split; [|intros [_ H]; discriminate].
        intros H; apply Hpre in H as [E | []]; discriminate.
Qed.

(** X9. The failure line of the handler is written exactly when the polling was
    exhausted, with the exhaustion message, or the submission was rejected,
    with its message. *)
Theorem failure_logged_iff (m : jsstring) :
  In (Errored [js "ERROR: Enrollment failed:"; m])
     (console (trace_of (run w 0 (on_message TARGET_CHAT ITEM msg)))) <->
  ((exists id, qualifies TARGET_CHAT w msg id) /\
   (forall j, j < default_maxRetries -> lookup_fails (get_result w j)) /\
   m = message (exhaustion default_maxRetries)) \/
  (submissions (trace_of (run w 0 (on_message TARGET_CHAT ITEM msg))) <> [] /\
   exists err, post_result w = Rejected err /\ m = message err).
Proof.
  assert (Hretry : forall k,
            ~ In (Errored [js "ERROR: Enrollment failed:"; m])
                 (map (fun j => retry_line (get_result w j) j) (seq 0 k))).
  { intros k H; apply in_map_iff in H as (j & E & _).
    destruct (get_result w j); discriminate. }
  destruct (run_cases TARGET_CHAT ITEM w msg)
    as [(Hn & Hrun) | [(e & Hin & Hc & Hrun) | [(Hin & _ & Hnq & Hrun)
       | [(id & tr & Hq & Hf & (_ & Hs & _) & Hcon & Hrun)
         | (id & N & d & tr & Hq & HN & Hr & Hp & Hcon & Hrun)]]]];
    rewrite Hrun; unfold trace_of; cbn [fst].
  - split; [intros []|].
    intros [((id & (Hin & _) & _) & _) | [H _]];
      [contradiction|exfalso; apply H; reflexivity].
  - split; [intros []|].
    intros [((id & (_ & c & Hc' & _) & _) & _) | [H _]];
      [congruence|exfalso; apply H; reflexivity].
  - split; [intros []|].
    intros [((id & Hq) & _) | [H _]];
      [exact (Hnq id Hq)|exfalso; apply H; reflexivity].
  - rewrite !console_app, !submissions_app, console_closing,
      closing_submissions, console_announcement, Hcon, Hs.
    split.
    + intros [E | [E | H]]; [discriminate|discriminate|].
      cbn [app] in H.
      apply in_app_or in H as [H | [E | []]]; [exfalso; exact (Hretry _ H)|].
      injection E as <-; left; split; [exists id; exact Hq|auto].
    + intros [(_ & _ & ->) | [H _]]; [|exfalso; apply H; reflexivity].
      do 2 right; cbn [app]; apply in_or_app; right; left; reflexivity.
  - destruct (polled_lookups_ready id N tr Hp) as [_ Hs].
    rewrite submissions_app, submissions_app, Hs, closing_submissions.
    rewrite !console_app, console_closing, console_announcement, Hcon.
    cbn [console app].
    assert (Hpre : forall rest,
              In (Errored [js "ERROR: Enrollment failed:"; m])
                 (Logged [js "INFO: A new listmoz link has been dropped!"]
                  :: Logged [js "INFO: Mod URL: " ++ id]
                  :: (map (fun j => retry_line (get_result w j) j) (seq 0 N)
                      ++ []) ++ rest) ->
              In (Errored [js "ERROR: Enrollment failed:"; m]) rest).
    { intros rest [E | [E | H]]; [discriminate|discriminate|].
      rewrite app_nil_r in H.
      apply in_app_or in H as [H | H]; [|exact H].
      exfalso; exact (Hretry _ H). }
    assert (Hnot : ~ forall j, j < default_maxRetries ->
                               lookup_fails (get_result w j)).
    { intros Hall; destruct Hr as [_ Hd].
      exact (lookup_not_both _ _ (Hall N HN) Hd). }
    destruct (alreadyExists ITEM d).
    + split.
      * intros H; apply Hpre in H as [E | []]; discriminate.
      * intros [(_ & Hall & _) | [H _]];
          [contradiction|exfalso; apply H; reflexivity].
    + destruct (post_result w) as [[]|err].
      * split.
        -- intros H; apply Hpre in H as [E | []]; discriminate.
        -- intros [(_ & Hall & _) | [_ (err & E & _)]];
             [contradiction|discriminate].
      * split.
        -- intros H; apply Hpre in H as [E | []].
           injection E as <-; right; split; [discriminate|].
           exists err; split; reflexivity.
        -- intros [(_ & Hall & _) | [_ (err' & E & ->)]]; [contradiction|].
           injection E as <-.
           do 2 right; apply in_or_app; right; left; reflexivity.
Qed.

End HandlerConsole.

(** ** Further properties: the link and the identifier for every body *)

Section ExtractionProperties.

Lemma trimStart_app_fixed (x y : jsstring) (d : code_unit) :
  is_white_space d = false ->
  trimStart (x ++ d :: y) = trimStart x ++ d :: y.
Proof.
  intros Hd; induction x as [|c x IH]; simpl.
  - rewrite Hd; reflexivity.
  - destruct (is_white_space c); [exact IH|reflexivity].
Qed.

Lemma trimEnd_app_fixed (a u : jsstring) (d : code_unit) :
  is_white_space d = false ->
  trimEnd (a ++ d :: u) = a ++ d :: trimEnd u.
Proof.
  intros Hd; unfold trimEnd.
  rewrite rev_app_distr; simpl rev at 1.
  rewrite <- !app_assoc; simpl app at 2.
  rewrite (trimStart_app_fixed _ _ _ Hd).
  rewrite rev_app_distr; simpl rev at 1.
  rewrite rev_involutive, <- app_assoc; reflexivity.
Qed.

Lemma trim_prefix (u : jsstring) : trim (prefix ++ u) = prefix ++ trimEnd u.
Proof.
  unfold trim.
  replace (trimStart (prefix ++ u)) with (prefix ++ u)
    by (symmetry; apply (trimStart_fixed 104%N (tl prefix ++ u)); reflexivity).
  destruct prefix_split as [-> _].
  rewrite <- !app_assoc.
  apply trimEnd_app_fixed; reflexivity.
Qed.

Lemma split_head (sep : code_unit) (t : jsstring) :
  exists segs, split sep t = up_to (fun c => N.eqb c sep) t :: segs.
Proof.
  induction t as [|c t (segs & IH)]; simpl.
  - exists []; reflexivity.
  - destruct (N.eqb c sep); [eexists; reflexivity|].
    rewrite IH; eexists; reflexivity.
Qed.

Lemma up_to_In (stop : code_unit -> bool) (x : jsstring) (c : code_unit) :
  In c (up_to stop x) -> In c x /\ stop c = false.
Proof.
  induction x as [|d x IH]; simpl; [intros []|].
  destruct (stop d) eqn:E; [intros []|].
  intros [<- | H]; [auto|].
  destruct (IH H); auto.
Qed.

Lemma trimStart_In (x : jsstring) (c : code_unit) :
  In c (trimStart x) -> In c x.
Proof.
  induction x as [|d x IH]; simpl; [intros []|].
  destruct (is_white_space d); [right; auto|intros H; exact H].
Qed.

Lemma trimEnd_In (x : jsstring) (c : code_unit) :
  In c (trimEnd x) -> In c x.
Proof.
  unfold trimEnd; intros H.
  apply in_rev, trimStart_In in H; apply in_rev; exact H.
Qed.

(** X15. The link and the identifier in closed form: with the first occurrence
    of the prefix followed by [rest], the link is the prefix and [rest] up
    to its first space with trailing white space removed, and the
    identifier is that text up to its first fragment delimiter. *)
Theorem modUrl_closed_form (body pre rest : jsstring) :
  first_occurrence prefix body pre rest ->
  fullUrl body = prefix ++ trimEnd (up_to (N.eqb space) rest) /\
  modUrl body =
    Some (up_to (fun c => N.eqb c hash) (trimEnd (up_to (N.eqb space) rest))).
Proof.
  intros Hf.
  assert (Hfull : fullUrl body = prefix ++ trimEnd (up_to (N.eqb space) rest))
    by (rewrite (fullUrl_first_occurrence _ _ _ Hf); apply trim_prefix).
  split; [exact Hfull|].
  unfold modUrl; rewrite Hfull.
  destruct prefix_split as [-> Hp].
  rewrite <- app_assoc; simpl ([hash] ++ _).
  rewrite (split_at_sep _ _ _ Hp).
  destruct (split_head hash (trimEnd (up_to (N.eqb space) rest)))
    as (segs & ->).
  reflexivity.
Qed.

(** X16. For a body containing the prefix, [split('#')[1]] is always defined,
    and the identifier holds neither a space nor a fragment delimiter. *)
Theorem identifier_is_clean (body : jsstring) :
  contains body prefix ->
  exists id,
    modUrl body = Some id /\
    Forall (fun c => c <> space /\ c <> hash) id.
Proof.
  intros Hc.
  destruct (contains_first_occurrence _ _ Hc) as (pre & rest & Hf).
  assert (Hfull : fullUrl body = prefix ++ trimEnd (up_to (N.eqb space) rest))
    by (rewrite (fullUrl_first_occurrence _ _ _ Hf); apply trim_prefix).
  eexists; split.
  - unfold modUrl; rewrite Hfull.
    destruct prefix_split as [-> Hp].
    rewrite <- app_assoc; simpl ([hash] ++ _).
    rewrite (split_at_sep _ _ _ Hp).
    destruct (split_head hash (trimEnd (up_to (N.eqb space) rest)))
      as (segs & ->).
    reflexivity.
  - apply Forall_forall; intros c Hin.
    apply up_to_In in Hin as [Hin Hh].
    apply trimEnd_In, up_to_In in Hin as [_ Hs].
    split; intros ->.
    + rewrite N.eqb_refl in Hs; discriminate.
    + rewrite N.eqb_refl in Hh; discriminate.
Qed.

End ExtractionProperties.

(** ** Further properties: the string operations *)

Section StringProperties.

Lemma occurs_at_starts_with (sub s : jsstring) (k : nat) :
  occurs_at sub s k <-> k <= length s /\ starts_with sub (skipn k s) = true.
Proof.
  split; intros [Hk H]; split; try exact Hk.
  - destruct H as (b & ->); apply starts_with_app.
  - eexists; apply starts_with_true; exact H.
Qed.

Lemma clamp_le (len : nat) (z : Z) : clamp len z <= len.
Proof. unfold clamp; lia. Qed.

(** X17. [indexOf] answers the first occurrence at or after the clamped
    position, and [-1] exactly when there is none. *)
Theorem indexOf_finds_first (s sub : jsstring) (position : Z) :
  (indexOf s sub position = (-1)%Z /\
   forall k, clamp (length s) position <= k -> ~ occurs_at sub s k) \/
  (exists k,
     indexOf s sub position = Z.of_nat k /\
     clamp (length s) position <= k /\
     occurs_at sub s k /\
     forall i, clamp (length s) position <= i < k -> ~ occurs_at sub s i).
Proof.
  unfold indexOf.
  pose proof (clamp_le (length s) position) as Hc.
  set (from := clamp (length s) position) in *.
  destruct (search sub (skipn from s) from) as [m|] eqn:Hs.
  - right.
    destruct (search_Some _ _ _ _ Hs) as (j & -> & Hj & Hm & Hlt).
    rewrite length_skipn in Hj.
    rewrite skipn_skipn in Hm.
    exists (from + j); split; [reflexivity|split; [lia|split]].
    + apply occurs_at_starts_with; split; [lia|].
      rewrite Nat.add_comm; exact Hm.
    + intros i Hi Ho.
      apply occurs_at_starts_with in Ho as [_ Ho].
      specialize (Hlt (i - from) ltac:(lia)).
      rewrite skipn_skipn in Hlt.
      replace (i - from + from) with i in Hlt by lia; congruence.
  - left; split; [reflexivity|].
    intros k Hk Ho.
    apply occurs_at_starts_with in Ho as [Hlen Ho].
    pose proof (search_None _ _ _ Hs (k - from)) as Hn.
    rewrite length_skipn, skipn_skipn in Hn.
    replace (k - from + from) with k in Hn by lia.
    rewrite Hn in Ho by lia; discriminate.
Qed.

(** X18. [substring] cuts the string between the two clamped indices, whatever
    their order. *)
Theorem substring_cuts (s : jsstring) (start end_ : Z) :
  let lo := Nat.min (clamp (length s) start) (clamp (length s) end_) in
  let hi := Nat.max (clamp (length s) start) (clamp (length s) end_) in
  s = firstn lo s ++ substring s start end_ ++ skipn hi s /\
  length (substring s start end_) = hi - lo /\
  substring s start end_ = substring s end_ start.
Proof.
  intros lo hi.
  pose proof (clamp_le (length s) start) as Ha.
  pose proof (clamp_le (length s) end_) as Hb.
  assert (Hsub : substring s start end_ = firstn (hi - lo) (skipn lo s))
    by reflexivity.
  split; [|split].
  - rewrite Hsub.
    rewrite <- (firstn_skipn lo s) at 1; f_equal.
    rewrite <- (firstn_skipn (hi - lo) (skipn lo s)) at 1; f_equal.
    rewrite skipn_skipn; f_equal; lia.
  - rewrite Hsub, length_firstn, length_skipn; lia.
  - unfold substring.
    rewrite (Nat.max_comm (clamp (length s) end_)),
      (Nat.min_comm (clamp (length s) end_)); reflexivity.
Qed.

Lemma trimStart_spec (s : jsstring) :
  exists l,
    s = l ++ trimStart s /\
    Forall (fun c => is_white_space c = true) l /\
    forall c u, trimStart s = c :: u -> is_white_space c = false.
Proof.
  induction s as [|d s (l & E & Hl & Hh)]; simpl.
  - exists []; repeat split; [constructor|discriminate].
  - destruct (is_white_space d) eqn:Hd.
    + exists (d :: l); split; [simpl; f_equal; exact E|].
      split; [constructor; assumption|exact Hh].
    + exists []; split; [reflexivity|split; [constructor|]].
      intros c u [= <- _]; exact Hd.
Qed.

Lemma trimStart_idem (s : jsstring) : trimStart (trimStart s) = trimStart s.
Proof.
  destruct (trimStart_spec s) as (_ & _ & _ & Hh).
  destruct (trimStart s) as [|c u] eqn:E; [reflexivity|].
  simpl; rewrite (Hh c u eq_refl); reflexivity.
Qed.

(** X19. [trim] removes white space at both ends and nothing else: the string is
    its trimmed part between two runs of white space, and the trimmed part
    neither starts nor ends with white space; trimming twice changes
    nothing more. *)
Theorem trim_strips_both_ends (s : jsstring) :
  (exists l r,
     s = l ++ trim s ++ r /\
     Forall (fun c => is_white_space c = true) l /\
     Forall (fun c => is_white_space c = true) r) /\
  (forall c u, trim s = c :: u -> is_white_space c = false) /\
  (forall u c, trim s = u ++ [c] -> is_white_space c = false) /\
  trim (trim s) = trim s.
Proof.
  destruct (trimStart_spec s) as (l & El & Hl & Hhead).
  destruct (trimStart_spec (rev (trimStart s))) as (r & Er & Hr & Hlast).
  assert (Et : trimStart s = trim s ++ rev r).
  { unfold trim, trimEnd.
    rewrite <- rev_app_distr, <- Er; symmetry; apply rev_involutive. }
  assert (Hend : forall u c, trim s = u ++ [c] -> is_white_space c = false).
  { intros u c E; unfold trim, trimEnd in E.
    apply (f_equal (@rev _)) in E.
    rewrite rev_involutive, rev_unit in E.
    exact (Hlast _ _ E). }
  assert (Hbeg : forall c u, trim s = c :: u -> is_white_space c = false).
  { intros c u E; apply (Hhead c (u ++ rev r)).
    rewrite Et, E; reflexivity. }
  split; [|split; [exact Hbeg|split; [exact Hend|]]].
  - exists l, (rev r); split; [rewrite <- Et; exact El|].
    split; [exact Hl|].
    apply Forall_forall; intros c Hc; apply in_rev in Hc.
    rewrite Forall_forall in Hr; apply Hr; exact Hc.
  - destruct (trim s) as [|c u] eqn:E; [reflexivity|].
    unfold trim at 1.
    rewrite (trimStart_fixed c u (Hbeg c u eq_refl)).
    destruct (exists_last (l := c :: u) ltac:(discriminate)) as (u' & d & E').
    rewrite E'; unfold trimEnd.
    rewrite rev_unit, (trimStart_fixed d _ (Hend u' d E')).
    rewrite <- rev_unit; apply rev_involutive.
Qed.

Lemma split_not_nil (sep : code_unit) (s : jsstring) : split sep s <> [].
Proof.
  destruct s as [|c s]; simpl; [discriminate|].
  destruct (N.eqb c sep); [discriminate|].
  destruct (split sep s); discriminate.
Qed.

(** X20. [split] cuts at every separator and only there: joining the segments
    with the separator gives the string back, no segment holds the
    separator, and there is one segment more than separators. *)
Theorem split_join (sep : code_unit) (s : jsstring) :
  join sep (split sep s) = s /\
  Forall (fun seg => ~ In sep seg) (split sep s) /\
  length (split sep s) = S (count_occ N.eq_dec s sep).
Proof.
  induction s as [|c s (Hj & Hf & Hl)]; simpl.
  - repeat split; constructor; [intros []|constructor].
  - pose proof (split_not_nil sep s) as Hne.
    destruct (N.eqb_spec c sep) as [->|Hc].
    + destruct (N.eq_dec sep sep) as [_|]; [|contradiction].
      destruct (split sep s) as [|seg segs] eqn:E; [contradiction|].
      split; [simpl; f_equal; exact Hj|].
      split; [constructor; [intros []|exact Hf]|simpl; f_equal; exact Hl].
    + destruct (N.eq_dec c sep) as [|_]; [contradiction|].
      destruct (split sep s) as [|seg segs] eqn:E; [contradiction|].
      split.
      * rewrite <- Hj; destruct segs; reflexivity.
      * split; [|exact Hl].
        inversion Hf as [|? ? Hseg Hrest]; subst.
        constructor; [|exact Hrest].
        intros [E' | Hin]; [congruence|contradiction].
Qed.

End StringProperties.

(** ** Instances of the further properties *)

Lemma other_chat_ignored_witness :
  contains (Msg.from (Sample.group_msg Sample.scenario_body)) (js "@g.us") /\
  name {| name := js "Family" |} <> Sample.target_chat /\
  run {| chat_result := Resolved {| name := js "Family" |};
         get_result := fun _ => Resolved {| data := Sample.unlisted |};
         post_result := Resolved tt |} 0
    (on_message Sample.target_chat Sample.the_item
       (Sample.group_msg Sample.scenario_body))
  = ([Call (getChat (Sample.group_msg Sample.scenario_body))], 0,
     Fulfilled tt).
Proof.
  assert (H1 : contains (Msg.from (Sample.group_msg Sample.scenario_body))
                 (js "@g.us"))
    by (apply includes_contains; vm_compute; reflexivity).
  assert (H2 : name {| name := js "Family" |} <> Sample.target_chat)
    by (vm_compute; discriminate).
  split; [exact H1|split; [exact H2|]].
  exact (other_chat_ignored Sample.target_chat Sample.the_item
           {| chat_result := Resolved {| name := js "Family" |};
              get_result := fun _ => Resolved {| data := Sample.unlisted |};
              post_result := Resolved tt |}
           (Sample.group_msg Sample.scenario_body)
           {| name := js "Family" |} H1 eq_refl H2).
Defined.

Lemma polling_returns_only_ready_witness :
  outcome_of
    (run (Sample.ready_third Sample.unlisted (Resolved tt)) 0
       (waitForValidFetch (js "abc123") 100))
  = Fulfilled Sample.unlisted /\
  exists N,
    N < 100 /\
    ready_after (Sample.ready_third Sample.unlisted (Resolved tt)) N
      Sample.unlisted /\
    lookups
      (trace_of
         (run (Sample.ready_third Sample.unlisted (Resolved tt)) 0
            (waitForValidFetch (js "abc123") 100)))
    = repeat (fetch_url (js "abc123")) (N + 1).
Proof.
  assert (H : outcome_of
                (run (Sample.ready_third Sample.unlisted (Resolved tt)) 0
                   (waitForValidFetch (js "abc123") 100))
              = Fulfilled Sample.unlisted) by (vm_compute; reflexivity).
  split; [exact H|].
  exact (polling_returns_only_ready
           (Sample.ready_third Sample.unlisted (Resolved tt))
           (js "abc123") 100 Sample.unlisted H).
Defined.

Lemma polling_fails_only_by_exhaustion_witness :
  outcome_of (run Sample.never_ready 0 (waitForValidFetch (js "abc123") 3))
  = Failed (exhaustion 3) /\
  (forall j, j < 3 -> lookup_fails (get_result Sample.never_ready j)) /\
  lookups
    (trace_of (run Sample.never_ready 0 (waitForValidFetch (js "abc123") 3)))
  = repeat (fetch_url (js "abc123")) 3.
Proof.
  assert (H : outcome_of
                (run Sample.never_ready 0 (waitForValidFetch (js "abc123") 3))
              = Failed (exhaustion 3)) by (vm_compute; reflexivity).
  split; [exact H|].
  destruct (polling_fails_only_by_exhaustion Sample.never_ready (js "abc123")
              3 (exhaustion 3) H) as (_ & Hf & Hl).
  split; [exact Hf|exact Hl].
Defined.

Lemma exhaustion_waits_after_every_attempt_witness :
  (forall j, j < 100 -> lookup_fails (get_result Sample.never_ready j)) /\
  total_wait
    (schedule
       (trace_of
          (run Sample.never_ready 0 (waitForValidFetch (js "abc123") 100))))
  = 3000000%N.
Proof.
  assert (H : forall j, j < 100 ->
                lookup_fails (get_result Sample.never_ready j))
    by (intros j _; apply never_ready_fails).
  split; [exact H|].
  exact (proj2 (exhaustion_waits_after_every_attempt Sample.never_ready
                  (js "abc123") 100 H)).
Defined.

Lemma retry_lines_in_order_witness :
  2 <= 100 /\
  (forall j, j < 2 ->
     lookup_fails
       (get_result (Sample.ready_third Sample.unlisted (Resolved tt)) j)) /\
  lookup_ready
    (get_result (Sample.ready_third Sample.unlisted (Resolved tt)) 2)
    Sample.unlisted /\
  console
    (trace_of
       (run (Sample.ready_third Sample.unlisted (Resolved tt)) 0
          (waitForValidFetch (js "abc123") 100)))
  = [Logged [js "WARNING: read_url not found, retrying (1)..."];
     Logged [js "WARNING: read_url not found, retrying (2)..."]].
Proof.
  assert (H1 : 2 <= 100) by lia.
  destruct (ready_third_after Sample.unlisted (Resolved tt) sample_read_url)
    as [H2 H3].
  split; [exact H1|split; [exact H2|split; [exact H3|]]].
  exact (retry_lines_in_order
           (Sample.ready_third Sample.unlisted (Resolved tt)) (js "abc123")
           100 2 H1 H2 (or_intror (ex_intro _ Sample.unlisted H3))).
Defined.

Lemma modUrl_closed_form_witness :
  first_occurrence prefix
    (js "x https://listmoz.com/#a#b" ++ [9%N] ++ js " tail")
    (js "x ") (js "a#b" ++ [9%N] ++ js " tail") /\
  fullUrl (js "x https://listmoz.com/#a#b" ++ [9%N] ++ js " tail")
    = js "https://listmoz.com/#a#b" /\
  modUrl (js "x https://listmoz.com/#a#b" ++ [9%N] ++ js " tail")
    = Some (js "a").
Proof.
  assert (H : first_occurrence prefix
                (js "x https://listmoz.com/#a#b" ++ [9%N] ++ js " tail")
                (js "x ") (js "a#b" ++ [9%N] ++ js " tail"))
    by (apply first_occurrence_check; vm_compute; reflexivity).
  split; [exact H|].
  exact (modUrl_closed_form _ _ _ H).
Defined.

Lemma identifier_is_clean_witness :
  contains Sample.newline_body prefix /\
  exists id,
    modUrl Sample.newline_body = Some id /\
    Forall (fun c => c <> space /\ c <> hash) id.
Proof.
  assert (H : contains Sample.newline_body prefix).
  { exists [], (js "abc" ++ [10%N] ++ js "thanks"); vm_compute; reflexivity. }
  split; [exact H|].
  exact (identifier_is_clean Sample.newline_body H).
Defined.
